(** * Capacitor CLI: the [create] task (cli/src/tasks/create.ts)

    A shallow embedding of [createCommand] and of the helpers of the same
    file.  An asynchronous function becomes a computation in a small monad
    that threads the mutable state (the shared [Config] object and the
    directories that exist on disk), produces the list of observable events of
    the run, and finishes in one of three ways: it returns, it throws a
    JavaScript value, or the process exits.  [await] is sequencing.

    Only create.ts is in the source tree.  What it imports from ../common,
    ../util/fs, ../config and the platform modules is modelled from the
    specification or taken as a parameter, and is marked as such.  Of what a
    collaborator does to the disk only the event of the call is kept, and
    the directory that [mkdirAsync] makes.  The styling of the messages
    (chalk, emoji) is left out. *)

From Stdlib Require Import List String Ascii Bool Arith Lia ZArith.
Import ListNotations.
Open Scope string_scope.
Open Scope list_scope.

(** ** Data *)

(** [OS] of ../definitions.  The task only compares the host with [OS.Mac],
    so every other host is one constructor. *)
Inductive OS := Mac | OtherOS.

Definition OS_eqb (a b : OS) : bool :=
  match a, b with
  | Mac, Mac | OtherOS, OtherOS => true
  | _, _ => false
  end.

(** The fields of [Config] that the task reads or writes, flattened:
    [cli_os] is [config.cli.os], [app_assets_templateDir] is
    [config.app.assets.templateDir], and so on. *)
Record Config := mkConfig {
  cli_os : OS;
  app_rootDir : string;
  app_appName : string;
  app_appId : string;
  app_bundledWebRuntime : bool;
  app_assets_templateDir : string;
  ios_name : string;
  android_name : string;
  web_name : string
}.

(** A value that can be thrown or handed to [logFatal]: [typeof e] is
    ['string'] for [JString] and something else for [JError]. *)
Inductive JsValue :=
| JString (s : string)
| JError (message : string).

Definition typeof_is_string (e : JsValue) : bool :=
  match e with JString _ => true | JError _ => false end.

(** The question object given to [inquirer.prompt]. *)
Record Question := mkQuestion {
  q_type : string;
  q_name : string;
  q_default : option string;
  q_message : string
}.

(** Calls to the collaborators that change the disk or run a subprocess. *)
Inductive Call :=
| Mkdir (dir : string)                    (* mkdirAsync(dir) *)
| GetOrCreateConfig                       (* getOrCreateConfig(config) *)
| Cp (src dst : string)                   (* cpAsync(src, dst) *)
| RunCommand (cmd : string)               (* runCommand(cmd) *)
| AddIOS                                  (* addIOS(config) *)
| AddAndroid                              (* addAndroid(config) *)
| Sync (platformName : string)            (* sync(config, platformName) *)
| EditProjectSettingsIOS                  (* editProjectSettingsIOS(config) *)
| EditProjectSettingsAndroid              (* editProjectSettingsAndroid(config) *)
| Copy (platformName : string).           (* copy(config, platformName) *)

Inductive CheckName := CheckAppDir | CheckAppId | CheckAppName.

(** What a run does, in the order in which it does it. *)
Inductive Event :=
| ECheck (c : CheckName) (arg : string)   (* a validation closure is run *)
| ELog (msg : string)                     (* log(msg) *)
| EPrompt (q : Question)                  (* inquirer.prompt([q]) *)
| EExists (path : string)                 (* existsAsync(path) *)
| ECall (c : Call)
| ESetCwd (dir : string)                  (* config.setCurrentWorkingDir(dir) *)
| ESetAppName (v : string)                (* config.app.appName = v *)
| ESetAppId (v : string)                  (* config.app.appId = v *)
| ESetBundledWebRuntime (b : bool)        (* config.app.bundledWebRuntime = b *)
| ETaskStart (title : string)             (* runTask: the task is announced *)
| ETaskDone (title : string)              (* runTask: the task has succeeded *)
| ELogFatal (e : JsValue)                 (* logFatal(e): the report *)
| EExit (code : Z).                       (* the process exits *)

Record State := mkState {
  config : Config;
  fs : list string                        (* the paths that exist *)
}.

(** The surroundings of a run: the validation predicates of ../common, which
    read the configuration and the disk and answer with a message or with
    nothing; the line the user types at each question; the collaborator
    calls that fail and the value they throw (whether a call fails depends
    on the call alone); the version in package.json; [basename] of the
    path module; and [rootDirFor], the root directory that [Config] records
    when it is given a working directory ([Config] is not in the source
    tree). *)
Record Env := mkEnv {
  checkAppDir : Config -> list string -> string -> option string;
  checkAppId : Config -> list string -> string -> option string;
  checkAppName : Config -> list string -> string -> option string;
  typed : string -> string;
  fails : Call -> option JsValue;
  cliVersion : string;
  basename : string -> string;
  rootDirFor : string -> string
}.

(** ** The monad *)

Inductive Outcome (A : Type) :=
| Returned (a : A)
| Thrown (e : JsValue)
| Exited (code : Z).
Arguments Returned {A} a.
Arguments Thrown {A} e.
Arguments Exited {A} code.

Definition M (A : Type) : Type := State -> Outcome A * State * list Event.

Definition ret {A} (a : A) : M A := fun s => (Returned a, s, []).

Definition bind {A B} (m : M A) (f : A -> M B) : M B :=
  fun s =>
    match m s with
    | (Returned a, s1, t1) =>
        match f a s1 with (o, s2, t2) => (o, s2, t1 ++ t2) end
    | (Thrown e, s1, t1) => (Thrown e, s1, t1)
    | (Exited c, s1, t1) => (Exited c, s1, t1)
    end.

Notation "x <- m ;; k" := (bind m (fun x => k))
  (at level 61, m at next level, right associativity).
Notation "m ;; k" := (bind m (fun _ => k))
  (at level 61, right associativity).

Definition throw {A} (e : JsValue) : M A := fun s => (Thrown e, s, []).
Definition exit {A} (code : Z) : M A := fun s => (Exited code, s, [EExit code]).
Definition emit (e : Event) : M unit := fun s => (Returned tt, s, [e]).
Definition get : M State := fun s => (Returned s, s, []).
Definition modify_config (f : Config -> Config) : M unit :=
  fun s => (Returned tt, mkState (f (config s)) (fs s), []).
Definition modify_fs (f : list string -> list string) : M unit :=
  fun s => (Returned tt, mkState (config s) (f (fs s)), []).

(** [try { body } catch (e) { handler e }]: a process that has exited is not
    caught. *)
Definition try_catch {A} (body : M A) (handler : JsValue -> M A) : M A :=
  fun s =>
    match body s with
    | (Thrown e, s1, t1) =>
        match handler e s1 with (o, s2, t2) => (o, s2, t1 ++ t2) end
    | r => r
    end.

Definition outcome_of {A} (r : Outcome A * State * list Event) : Outcome A :=
  fst (fst r).
Definition state_of {A} (r : Outcome A * State * list Event) : State :=
  snd (fst r).
Definition trace_of {A} (r : Outcome A * State * list Event) : list Event :=
  snd r.

(** The result of a computation that ran after the events [t]. *)
Definition prepend {A} (t : list Event) (r : Outcome A * State * list Event)
  : Outcome A * State * list Event :=
  (outcome_of r, state_of r, t ++ trace_of r).

(** JavaScript's [!s] on a string. *)
Definition falsy (s : string) : bool :=
  match s with EmptyString => true | String _ _ => false end.

Definition dq : string := String (ascii_of_nat 34) EmptyString.

Definition set_rootDir (d : string) (c : Config) : Config :=
  mkConfig (cli_os c) d (app_appName c) (app_appId c) (app_bundledWebRuntime c)
           (app_assets_templateDir c) (ios_name c) (android_name c) (web_name c).
Definition set_appName (v : string) (c : Config) : Config :=
  mkConfig (cli_os c) (app_rootDir c) v (app_appId c) (app_bundledWebRuntime c)
           (app_assets_templateDir c) (ios_name c) (android_name c) (web_name c).
Definition set_appId (v : string) (c : Config) : Config :=
  mkConfig (cli_os c) (app_rootDir c) (app_appName c) v (app_bundledWebRuntime c)
           (app_assets_templateDir c) (ios_name c) (android_name c) (web_name c).
Definition set_bundledWebRuntime (b : bool) (c : Config) : Config :=
  mkConfig (cli_os c) (app_rootDir c) (app_appName c) (app_appId c) b
           (app_assets_templateDir c) (ios_name c) (android_name c) (web_name c).

(** The three questions of create.ts. *)
Definition dirQuestion : Question :=
  mkQuestion "input" "dir" None "Directory for new app".
Definition nameQuestion : Question :=
  mkQuestion "input" "name" (Some "App") "App name".
Definition idQuestion : Question :=
  mkQuestion "input" "id" (Some "com.example.app") "App/Bundle ID".

Section Create.

Variable env : Env.

(** ** Collaborators that are not in create.ts *)

(** Modelled from the spec: [log] of ../common is not in the source tree.
    It prints its argument. *)
Definition log (msg : string) : M unit := emit (ELog msg).

(** Modelled from the spec: [logFatal] of ../common is not in the source
    tree.  A fatal failure is reported and the process terminates with a
    non-zero status, so [logFatal] never returns to its caller. *)
Definition logFatal {A} (e : JsValue) : M A :=
  emit (ELogFatal e);; exit 1%Z.

(** Modelled from the spec: [check] of ../common is not in the source tree.
    The checks are executed in sequence; the first one that answers with a
    message stops the sequence, and that message is the failure that is
    propagated, as a plain string. *)
Fixpoint check (checks : list (M (option string))) : M unit :=
  match checks with
  | [] => ret tt
  | c :: rest =>
      r <- c;;
      match r with
      | Some msg => throw (JString msg)
      | None => check rest
      end
  end.

(** Modelled from the spec: [runTask] of ../common is not in the source
    tree.  It prints a start indicator with the description, executes the
    action, prints a success indicator on completion, and propagates the
    failure of the action unchanged. *)
Definition runTask {A} (title : string) (fn : M A) : M A :=
  emit (ETaskStart title);;
  a <- fn;;
  emit (ETaskDone title);;
  ret a.

(** Modelled from the spec: the collaborators [getOrCreateConfig],
    [runCommand], [addIOS], [addAndroid], [sync], [editProjectSettingsIOS],
    [editProjectSettingsAndroid] and [copy] are not in the source tree.
    Each is an asynchronous call that may fail: the call happens, and it
    throws when the surroundings say so. *)
Definition call (c : Call) : M unit :=
  emit (ECall c);;
  match fails env c with
  | Some e => throw e
  | None => ret tt
  end.

(** Modelled from the spec: the filesystem primitives [existsAsync],
    [mkdirAsync] and [cpAsync] of ../util/fs are not in the source tree.
    [existsAsync] reads the disk; [mkdirAsync] and [cpAsync] are calls that
    may fail, and a directory that has been made exists. *)
Definition existsAsync (path : string) : M bool :=
  emit (EExists path);;
  s <- get;;
  ret (existsb (String.eqb path) (fs s)).

Definition mkdirAsync (dir : string) : M unit :=
  call (Mkdir dir);;
  modify_fs (cons dir).

Definition cpAsync (src dst : string) : M unit := call (Cp src dst).

(** [inquirer.prompt] (a library, not code of the repository) with one
    question of type input: the answer is the line that was typed, or the
    default of the question when the line is empty and there is a
    default. *)
Definition answer (q : Question) : string :=
  let line := typed env (q_name q) in
  if falsy line
  then match q_default q with Some d => d | None => line end
  else line.

Definition inquirer_prompt (q : Question) : M string :=
  emit (EPrompt q);;
  ret (answer q).

(** Modelled from the spec: [Config.setCurrentWorkingDir] is not in the
    source tree.  It records the working directory of the run.  What it
    stores in [config.app.rootDir], which [printNextSteps] reads, is not
    said, so it is the parameter [rootDirFor] of the surroundings. *)
Definition setCurrentWorkingDir (dir : string) : M unit :=
  emit (ESetCwd dir);; modify_config (set_rootDir (rootDirFor env dir)).

(** The three closures that [createCommand] hands to [check]. *)
Definition run_check (c : CheckName) (arg : string) : M (option string) :=
  emit (ECheck c arg);;
  s <- get;;
  ret (match c with
       | CheckAppDir => checkAppDir env (config s) (fs s) arg
       | CheckAppId => checkAppId env (config s) (fs s) arg
       | CheckAppName => checkAppName env (config s) (fs s) arg
       end).

(** ** create.ts *)

Definition getDir (dir : string) : M string :=
  if falsy dir then inquirer_prompt dirQuestion else ret dir.

Definition getName (name : string) : M string :=
  if falsy name then inquirer_prompt nameQuestion else ret name.

Definition getAppId (id : string) : M string :=
  if falsy id then inquirer_prompt idQuestion else ret id.

Definition dirExistsMessage (dir : string) : string :=
  ("The directory " ++ dir ++
   " already exists. Please remove it before creating your app")%string.

Definition makeDirectory (dir : string) : M unit :=
  ex <- existsAsync dir;;
  (if ex then logFatal (JString (dirExistsMessage dir)) else ret tt);;
  mkdirAsync dir.

Definition createTitle (appName dir appId : string) : string :=
  ("Creating app " ++ appName ++ " in " ++ dir ++ " with id " ++ appId)%string.

Definition create (dir appName appId : string) : M unit :=
  s <- get;;
  let templateDir := app_assets_templateDir (config s) in
  runTask (createTitle appName dir appId) (cpAsync templateDir dir).

Definition installCommand (dir : string) : string :=
  ("cd " ++ dq ++ dir ++ dq ++
   " && npm install --save @capacitor/cli @capacitor/core")%string.

Definition installDeps (dir : string) : M unit :=
  runTask "Installing dependencies" (call (RunCommand (installCommand dir))).

Definition addPlatforms (dir : string) : M unit :=
  runTask "add default platforms"
    (s <- get;;
     (if OS_eqb (cli_os (config s)) Mac then
        call AddIOS;;
        call (Sync (ios_name (config s)))
      else ret tt);;
     call AddAndroid;;
     s' <- get;;
     call (Sync (android_name (config s')))).

Definition editPlatforms (appName appId : string) : M unit :=
  s <- get;;
  (if OS_eqb (cli_os (config s)) Mac then call EditProjectSettingsIOS
   else ret tt);;
  call EditProjectSettingsAndroid.

Definition printNextSteps : M unit :=
  s <- get;;
  log "Your app is ready!";;
  log "Next steps:";;
  log ("cd ./" ++ basename env (app_rootDir (config s)))%string;;
  log "Get to work by following the Capacitor Development Workflow: https://capacitor.ionicframework.com/docs/basics/workflow".

Definition welcome : string :=
  ("Welcome to Capacitor (CLI v" ++ cliVersion env ++ ")")%string.
Definition usageLine : string :=
  "Usage: npx @capacitor/cli create appDir appName appId".
Definition exampleLine : string :=
  ("Example: npx @capacitor/cli create my-app " ++ dq ++ "My App" ++ dq ++
   " " ++ dq ++ "com.example.myapp" ++ dq)%string.

(** The body of the [try] block. *)
Definition createBody (dir name id : string) : M unit :=
  check [run_check CheckAppDir dir;
         run_check CheckAppId id;
         run_check CheckAppName name];;
  log welcome;;
  appDir <- getDir dir;;
  makeDirectory appDir;;
  setCurrentWorkingDir appDir;;
  appName <- getName name;;
  appId <- getAppId id;;
  emit (ESetAppName appName);; modify_config (set_appName appName);;
  emit (ESetAppId appId);; modify_config (set_appId appId);;
  emit (ESetBundledWebRuntime true);; modify_config (set_bundledWebRuntime true);;
  call GetOrCreateConfig;;
  create appDir appName appId;;
  installDeps appDir;;
  addPlatforms appDir;;
  editPlatforms appName appId;;
  s <- get;;
  call (Copy (web_name (config s)));;
  printNextSteps.

(** The [catch] block. *)
Definition createCatch (e : JsValue) : M unit :=
  (if typeof_is_string e then log usageLine;; log exampleLine else ret tt);;
  logFatal e.

Definition createCommand (dir name id : string) : M unit :=
  try_catch (createBody dir name id) createCatch.

End Create.


(** ** Observations on traces *)

Definition is_check (e : Event) : bool :=
  match e with ECheck _ _ => true | _ => false end.



Definition is_mkdir (e : Event) : bool :=
  match e with ECall (Mkdir _) => true | _ => false end.

(** Every collaborator call writes to the disk or runs a subprocess. *)
Definition is_mutation (e : Event) : bool :=
  match e with ECall _ => true | _ => false end.

(** The collaborator calls of a trace, in order. *)
Definition calls (tr : list Event) : list Call :=
  flat_map (fun e => match e with ECall c => [c] | _ => [] end) tr.

(** [precedes p q tr]: every [p] event of [tr] happens strictly before every
    [q] event of [tr]. *)
Definition precedes (p q : Event -> bool) (tr : list Event) : Prop :=
  forall i j e1 e2,
    nth_error tr i = Some e1 -> p e1 = true ->
    nth_error tr j = Some e2 -> q e2 = true ->
    i < j.

(** The stage of the pipeline to which an event belongs.  Messages and task
    indicators belong to no stage of their own. *)
Definition stage (e : Event) : option nat :=
  match e with
  | ECheck _ _ => Some 0
  | EPrompt q => Some (if String.eqb (q_name q) "dir" then 1 else 4)
  | EExists _ => Some 2
  | ECall (Mkdir _) => Some 3
  | ESetCwd _ => Some 3
  | ESetAppName _ | ESetAppId _ | ESetBundledWebRuntime _ => Some 5
  | ECall GetOrCreateConfig => Some 6
  | ECall (Cp _ _) => Some 7
  | ECall (RunCommand _) => Some 8
  | ECall AddIOS | ECall AddAndroid | ECall (Sync _) => Some 9
  | ECall EditProjectSettingsIOS | ECall EditProjectSettingsAndroid => Some 10
  | ECall (Copy _) => Some 11
  | ELogFatal _ | EExit _ => Some 12
  | ELog _ | ETaskStart _ | ETaskDone _ => None
  end.

Definition stages (tr : list Event) : list nat :=
  flat_map (fun e => match stage e with Some n => [n] | None => [] end) tr.

(** [ascending lo l hi]: [l] is sorted and lies between [lo] and [hi]. *)
Fixpoint ascending (lo : nat) (l : list nat) (hi : nat) : Prop :=
  match l with
  | [] => lo <= hi
  | n :: l' => lo <= n /\ ascending n l' hi
  end.

(** [phased lo hi m]: whatever the state, the events of [m] go through the
    stages in order, from stage [lo] on; they end at stage [hi] at the latest
    when [m] returns, at stage 11 (the last stage of the [try] block) when it
    throws, and at stage 12 (the fatal report) when the process exits. *)
Definition phased {A} (lo hi : nat) (m : M A) : Prop :=
  forall s,
    ascending lo (stages (trace_of (m s)))
      (match outcome_of (m s) with
       | Returned _ => hi
       | Thrown _ => 11
       | Exited _ => 12
       end).

(** ** What a run is expected to do *)

(** The value that [getDir], [getName] and [getAppId] give back: the value
    of the caller when it is not empty, and the answer to the question
    otherwise. *)
Definition resolve (env : Env) (q : Question) (v : string) : string :=
  if falsy v then answer env q else v.

Definition asked (q : Question) (v : string) : list Event :=
  if falsy v then [EPrompt q] else [].

Definition is_platform_call (c : Call) : bool :=
  match c with
  | AddIOS | AddAndroid | Sync _
  | EditProjectSettingsIOS | EditProjectSettingsAndroid => true
  | _ => false
  end.

Definition platform_calls (tr : list Event) : list Call :=
  filter is_platform_call (calls tr).

(** The platform calls of a bootstrap in which no call fails. *)
Definition expected_platform_calls (cfg : Config) : list Call :=
  match cli_os cfg with
  | Mac =>
      [AddIOS; Sync (ios_name cfg); AddAndroid; Sync (android_name cfg);
       EditProjectSettingsIOS; EditProjectSettingsAndroid]
  | OtherOS =>
      [AddAndroid; Sync (android_name cfg); EditProjectSettingsAndroid]
  end.

(** The final report of [printNextSteps]. *)
Definition nextSteps (env : Env) (rootDir : string) : list Event :=
  [ELog "Your app is ready!";
   ELog "Next steps:";
   ELog ("cd ./" ++ basename env rootDir)%string;
   ELog "Get to work by following the Capacitor Development Workflow: https://capacitor.ionicframework.com/docs/basics/workflow"].

(** The whole trace of a run that succeeds. *)
Definition success_trace (env : Env) (cfg : Config) (dir name id : string)
  : list Event :=
  let appDir := resolve env dirQuestion dir in
  let appName := resolve env nameQuestion name in
  let appId := resolve env idQuestion id in
  [ECheck CheckAppDir dir; ECheck CheckAppId id; ECheck CheckAppName name;
   ELog (welcome env)]
  ++ asked dirQuestion dir
  ++ [EExists appDir; ECall (Mkdir appDir); ESetCwd appDir]
  ++ asked nameQuestion name
  ++ asked idQuestion id
  ++ [ESetAppName appName; ESetAppId appId; ESetBundledWebRuntime true;
      ECall GetOrCreateConfig;
      ETaskStart (createTitle appName appDir appId);
      ECall (Cp (app_assets_templateDir cfg) appDir);
      ETaskDone (createTitle appName appDir appId);
      ETaskStart "Installing dependencies";
      ECall (RunCommand (installCommand appDir));
      ETaskDone "Installing dependencies";
      ETaskStart "add default platforms"]
  ++ (if OS_eqb (cli_os cfg) Mac
      then [ECall AddIOS; ECall (Sync (ios_name cfg))] else [])
  ++ [ECall AddAndroid; ECall (Sync (android_name cfg));
      ETaskDone "add default platforms"]
  ++ (if OS_eqb (cli_os cfg) Mac then [ECall EditProjectSettingsIOS] else [])
  ++ [ECall EditProjectSettingsAndroid; ECall (Copy (web_name cfg))]
  ++ nextSteps env (rootDirFor env appDir).

(** The events of the [catch] block for the failure [e]. *)
Definition fatal_report (e : JsValue) : list Event :=
  (if typeof_is_string e then [ELog usageLine; ELog exampleLine] else [])
  ++ [ELogFatal e; EExit 1%Z].

(** [cut env tr]: the events of the script [tr] that happen when its calls
    are made in the surroundings [env], that is [tr] up to its first failing
    call, and the value that this call throws. *)
Fixpoint cut (env : Env) (tr : list Event) : list Event * option JsValue :=
  match tr with
  | [] => ([], None)
  | e :: rest =>
      match e with
      | ECall c =>
          match fails env c with
          | Some err => ([e], Some err)
          | None => (e :: fst (cut env rest), snd (cut env rest))
          end
      | _ => (e :: fst (cut env rest), snd (cut env rest))
      end
  end.

(** [plays env m s tr a s']: from the state [s], [m] goes through the script
    [tr] up to its first failing call; when no call fails it returns [a] in
    the state [s'], otherwise it throws what the failing call throws. *)
Definition plays (env : Env) {A} (m : M A) (s : State) (tr : list Event)
    (a : A) (s' : State) : Prop :=
  match snd (cut env tr) with
  | None => m s = (Returned a, s', fst (cut env tr))
  | Some e => exists s'', m s = (Thrown e, s'', fst (cut env tr))
  end.

(** The checks that are run, and the message of the first that fails. *)
Definition validation (env : Env) (s : State) (dir name id : string)
  : list Event * option string :=
  match checkAppDir env (config s) (fs s) dir with
  | Some msg => ([ECheck CheckAppDir dir], Some msg)
  | None =>
      match checkAppId env (config s) (fs s) id with
      | Some msg => ([ECheck CheckAppDir dir; ECheck CheckAppId id], Some msg)
      | None =>
          ([ECheck CheckAppDir dir; ECheck CheckAppId id;
            ECheck CheckAppName name],
           checkAppName env (config s) (fs s) name)
      end
  end.

(** The outcome and the trace of a run, case by case: a check fails; the
    checks pass and the directory exists; otherwise the script of a
    successful run is followed up to the first call that fails. *)
Definition expected_run (env : Env) (s : State) (dir name id : string)
  : Outcome unit * list Event :=
  let appDir := resolve env dirQuestion dir in
  let script := success_trace env (config s) dir name id in
  match snd (validation env s dir name id) with
  | Some msg =>
      (Exited 1%Z,
       fst (validation env s dir name id) ++ fatal_report (JString msg))
  | None =>
      if existsb (String.eqb appDir) (fs s) then
        (Exited 1%Z,
         fst (validation env s dir name id)
         ++ [ELog (welcome env)] ++ asked dirQuestion dir
         ++ [EExists appDir; ELogFatal (JString (dirExistsMessage appDir));
             EExit 1%Z])
      else
        match snd (cut env script) with
        | None => (Returned tt, script)
        | Some e => (Exited 1%Z, fst (cut env script) ++ fatal_report e)
        end
  end.

(** The script of the platform bootstrap: [addPlatforms], then
    [editPlatforms]. *)
Definition bootstrap_script (cfg : Config) : list Event :=
  [ETaskStart "add default platforms"]
  ++ (if OS_eqb (cli_os cfg) Mac
      then [ECall AddIOS; ECall (Sync (ios_name cfg))] else [])
  ++ [ECall AddAndroid; ECall (Sync (android_name cfg));
      ETaskDone "add default platforms"]
  ++ (if OS_eqb (cli_os cfg) Mac then [ECall EditProjectSettingsIOS] else [])
  ++ [ECall EditProjectSettingsAndroid].

(** The events of the [catch] block and of [logFatal]. *)
Definition is_report (e : Event) : bool :=
  match e with
  | ELog m => String.eqb m usageLine || String.eqb m exampleLine
  | ELogFatal _ | EExit _ => true
  | _ => false
  end.

(** ** Two statements about the order of a run *)




(** ** Sample surroundings *)

Definition has_dot (s : string) : bool :=
  match index 0 "." s with Some _ => true | None => false end.

(** [path.basename] for a POSIX path: the last component of the path that
    is not empty. *)
Fixpoint posix_basename_from (current last p : string) : string :=
  match p with
  | EmptyString => if falsy current then last else current
  | String c rest =>
      if Ascii.eqb c "/"%char then
        posix_basename_from EmptyString
          (if falsy current then last else current) rest
      else
        posix_basename_from (current ++ String c EmptyString)%string last rest
  end.

Definition posix_basename (p : string) : string :=
  posix_basename_from EmptyString EmptyString p.

(** The absolute path of a plain directory name, seen from the working
    directory /work. *)
Definition from_work (dir : string) : string :=
  match dir with
  | EmptyString => "/work"
  | String c _ => if Ascii.eqb c "/"%char then dir else ("/work/" ++ dir)%string
  end.

(** Checks that follow the description of ../common: an identifier must
    contain a dot and a name must not be empty, so the empty identifier and
    the empty name are rejected; the directory must not exist. *)
Definition sampleEnv (lines : string -> string) (failing : Call -> option JsValue)
  : Env :=
  mkEnv
    (fun _ paths dir =>
       if existsb (String.eqb dir) paths
       then Some "The directory already exists" else None)
    (fun _ _ id => if has_dot id then None else Some "Invalid App ID")
    (fun _ _ name =>
       if falsy name then Some "Must provide an app name" else None)
    lines failing "1.0.0" posix_basename from_work.

(** The same checks of the identifier and of the name, with a check of the
    directory that accepts every directory and leaves the test for an
    existing directory to [makeDirectory]. *)
Definition lenientEnv (lines : string -> string) (failing : Call -> option JsValue)
  : Env :=
  mkEnv
    (fun _ _ _ => None)
    (fun _ _ id => if has_dot id then None else Some "Invalid App ID")
    (fun _ _ name =>
       if falsy name then Some "Must provide an app name" else None)
    lines failing "1.0.0" posix_basename from_work.

Definition sampleConfig (os : OS) : Config :=
  mkConfig os EmptyString EmptyString EmptyString false
           "/cli/assets/app-template" "ios" "android" "www".

Definition sampleState (os : OS) (paths : list string) : State :=
  mkState (sampleConfig os) paths.

Definition nothing_typed : string -> string := fun _ => EmptyString.
Definition nothing_fails : Call -> option JsValue := fun _ => None.

(** The copy of the template fails. *)
Definition cp_fails : Call -> option JsValue :=
  fun c =>
    match c with
    | Cp _ _ => Some (JError "EACCES: permission denied")
    | _ => None
    end.

(** Two instrumented checks: the first passes, the second fails. *)
Definition passing_check : M (option string) :=
  emit (ECheck CheckAppDir "my-app");; ret None.
Definition failing_check : M (option string) :=
  emit (ECheck CheckAppId "my app");; ret (Some "Invalid App ID").

(** ** More on what a run does *)

(** The collaborator calls of a run in which no call fails. *)
Definition pipeline_calls (env : Env) (cfg : Config) (dir : string)
  : list Call :=
  let appDir := resolve env dirQuestion dir in
  [Mkdir appDir; GetOrCreateConfig;
   Cp (app_assets_templateDir cfg) appDir;
   RunCommand (installCommand appDir)]
  ++ expected_platform_calls cfg
  ++ [Copy (web_name cfg)].

(** [preserves_fs m]: [m] leaves the existing paths as they are, however it
    ends. *)
Definition preserves_fs {A} (m : M A) : Prop :=
  forall s, fs (state_of (m s)) = fs s.

(** The assignments to the configuration. *)
Definition is_config_write (e : Event) : bool :=
  match e with
  | ESetCwd _ | ESetAppName _ | ESetAppId _ | ESetBundledWebRuntime _ => true
  | _ => false
  end.

(** The calls that come after the directory has been made:
    [getOrCreateConfig] and what follows it. *)
Definition is_call_after_mkdir (e : Event) : bool :=
  is_mutation e && negb (is_mkdir e).

(** The installation of the dependencies fails with a plain string. *)
Definition npm_fails_with_string : Call -> option JsValue :=
  fun c =>
    match c with
    | RunCommand _ => Some (JString "npm ERR! network")
    | _ => None
    end.

(** The directory cannot be made. *)
Definition mkdir_fails : Call -> option JsValue :=
  fun c =>
    match c with
    | Mkdir _ => Some (JError "EACCES: permission denied")
    | _ => None
    end.

(** ** Sorted lists of stages *)

Lemma ascending_bounds lo l hi : ascending lo l hi -> lo <= hi.
Proof.
  revert lo; induction l as [|n l IH]; simpl; intros lo H; [exact H|].
  destruct H as [H1 H2]. apply IH in H2. lia.
Qed.

Lemma ascending_weaken lo lo' l hi hi' :
  ascending lo l hi -> lo' <= lo -> hi <= hi' -> ascending lo' l hi'.
Proof.
  revert lo lo'; induction l as [|n l IH]; simpl; intros lo lo' H Hlo Hhi.
  - lia.
  - destruct H as [H1 H2]. split; [lia|]. apply (IH n n); auto.
Qed.

Lemma ascending_app lo l1 mid l2 hi :
  ascending lo l1 mid -> ascending mid l2 hi -> ascending lo (l1 ++ l2) hi.
Proof.
  revert lo; induction l1 as [|n l1 IH]; simpl; intros lo H1 H2.
  - apply ascending_weaken with (lo := mid) (hi := hi); auto.
  - destruct H1 as [Hn H1]. split; auto.
Qed.

Lemma stages_app t1 t2 : stages (t1 ++ t2) = stages t1 ++ stages t2.
Proof. unfold stages. apply flat_map_app. Qed.

Lemma ascending_nth lo tr hi i e a :
  ascending lo (stages tr) hi ->
  nth_error tr i = Some e -> stage e = Some a -> lo <= a <= hi.
Proof.
  revert lo i; induction tr as [|e0 tr IH]; intros lo i Hasc Hnth Hst.
  - destruct i; discriminate.
  - destruct i as [|i]; simpl in Hnth.
    + injection Hnth as ->. simpl in Hasc. rewrite Hst in Hasc.
      simpl in Hasc. destruct Hasc as [H1 H2].
      apply ascending_bounds in H2. lia.
    + simpl in Hasc. destruct (stage e0) as [n|]; simpl in Hasc.
      * destruct Hasc as [H1 H2].
        specialize (IH n i H2 Hnth Hst). lia.
      * exact (IH lo i Hasc Hnth Hst).
Qed.

Lemma ascending_order lo tr hi i j e1 e2 a b :
  ascending lo (stages tr) hi ->
  nth_error tr i = Some e1 -> stage e1 = Some a ->
  nth_error tr j = Some e2 -> stage e2 = Some b ->
  i < j -> a <= b.
Proof.
  revert lo i j; induction tr as [|e0 tr IH]; intros lo i j Hasc Hi Ha Hj Hb Hlt.
  - destruct i; discriminate.
  - destruct j as [|j]; [lia|]. simpl in Hj.
    destruct i as [|i]; simpl in Hi.
    + injection Hi as ->. simpl in Hasc. rewrite Ha in Hasc. simpl in Hasc.
      destruct Hasc as [_ H2].
      pose proof (ascending_nth _ _ _ _ _ _ H2 Hj Hb). lia.
    + simpl in Hasc. destruct (stage e0) as [n|]; simpl in Hasc.
      * destruct Hasc as [_ H2]. apply (IH n i j H2 Hi Ha Hj Hb). lia.
      * apply (IH lo i j Hasc Hi Ha Hj Hb). lia.
Qed.

(** In a trace that goes through the stages in order, the events of the
    stages up to [k] precede the events of the stages after [k]. *)
Lemma ascending_precedes lo tr hi k (p q : Event -> bool) :
  ascending lo (stages tr) hi ->
  (forall e, p e = true -> exists a, stage e = Some a /\ a <= k) ->
  (forall e, q e = true -> exists b, stage e = Some b /\ k < b) ->
  precedes p q tr.
Proof.
  intros Hasc Hp Hq i j e1 e2 Hi Hpe Hj Hqe.
  destruct (Hp _ Hpe) as (a & Ha & Hak).
  destruct (Hq _ Hqe) as (b & Hb & Hkb).
  destruct (Nat.lt_trichotomy i j) as [Hlt|[Heq|Hgt]]; [exact Hlt| |].
  - subst j. rewrite Hi in Hj. injection Hj as <-.
    rewrite Ha in Hb. injection Hb as <-. lia.
  - pose proof (ascending_order _ _ _ _ _ _ _ _ _ Hasc Hj Hb Hi Ha Hgt). lia.
Qed.

(** ** Rules for [phased] *)

Lemma phased_weaken {A} lo lo' hi hi' (m : M A) :
  phased lo hi m -> lo' <= lo -> hi <= hi' -> phased lo' hi' m.
Proof.
  intros H Hlo Hhi s. specialize (H s).
  destruct (outcome_of (m s)); eapply ascending_weaken; eauto.
Qed.

Lemma phased_ret {A} lo hi (a : A) : lo <= hi -> phased lo hi (ret a).
Proof. intros H s. exact H. Qed.

Lemma phased_get lo hi : lo <= hi -> phased lo hi get.
Proof. intros H s. exact H. Qed.

Lemma phased_throw {A} lo hi e : lo <= 11 -> phased lo hi (@throw A e).
Proof. intros H s. exact H. Qed.

Lemma phased_modify_config lo hi f : lo <= hi -> phased lo hi (modify_config f).
Proof. intros H s. exact H. Qed.

Lemma phased_emit lo hi e n :
  stage e = Some n -> lo <= n <= hi -> phased lo hi (emit e).
Proof.
  intros He Hn s. unfold emit, trace_of; simpl. rewrite He. simpl. lia.
Qed.

Lemma phased_emit_silent lo hi e :
  stage e = None -> lo <= hi -> phased lo hi (emit e).
Proof.
  intros He Hn s. unfold emit, trace_of; simpl. rewrite He. exact Hn.
Qed.

Lemma phased_exit {A} lo hi c : lo <= 12 -> phased lo hi (@exit A c).
Proof. intros H s. unfold exit, trace_of; simpl. lia. Qed.

Lemma phased_bind {A B} lo mid hi (m : M A) (f : A -> M B) :
  phased lo mid m -> (forall a, phased mid hi (f a)) ->
  phased lo hi (bind m f).
Proof.
  intros Hm Hf s. specialize (Hm s). unfold bind.
  destruct (m s) as [[[a|e|c] s1] t1]; unfold trace_of, outcome_of in *;
    simpl in *; try exact Hm.
  specialize (Hf a s1). destruct (f a s1) as [[o s2] t2]; simpl in *.
  rewrite stages_app. eapply ascending_app; eauto.
Qed.

Lemma phased_try_catch {A} lo hi (body : M A) (handler : JsValue -> M A) :
  phased lo hi body -> (forall e, phased 11 hi (handler e)) ->
  phased lo hi (try_catch body handler).
Proof.
  intros Hm Hf s. specialize (Hm s). unfold try_catch.
  destruct (body s) as [[[a|e|c] s1] t1]; unfold trace_of, outcome_of in *;
    simpl in *; try exact Hm.
  specialize (Hf e s1). destruct (handler e s1) as [[o s2] t2]; simpl in *.
  rewrite stages_app. eapply ascending_app; eauto.
Qed.

Lemma phased_check lo hi (checks : list (M (option string))) :
  lo <= hi -> lo <= 11 ->
  Forall (phased lo lo) checks -> phased lo hi (check checks).
Proof.
  intros Hle Hle' H. induction H as [|c rest Hc _ IH]; simpl.
  - apply phased_ret; exact Hle.
  - apply phased_bind with (mid := lo); [exact Hc|].
    intros [msg|]; [apply phased_throw; exact Hle'|exact IH].
Qed.

Ltac phased_leaf :=
  first
    [ apply phased_ret; lia
    | apply phased_get; lia
    | apply phased_throw; lia
    | apply phased_modify_config; lia
    | apply phased_exit; lia
    | eapply phased_emit; [reflexivity|lia]
    | apply phased_emit_silent; [reflexivity|lia] ].

(** [phased_seq k]: the first computation of a sequence ends at stage [k] at
    the latest when it returns, and what follows starts there at the
    earliest. *)
Ltac phased_seq k :=
  apply phased_bind with (mid := k); [ | intro ].

Lemma phased_run_check env c arg : phased 0 0 (run_check env c arg).
Proof.
  unfold run_check.
  phased_seq 0; [phased_leaf|].
  phased_seq 0; phased_leaf.
Qed.

Lemma phased_logFatal {A} lo hi e : lo <= 12 -> phased lo hi (@logFatal A e).
Proof.
  intros H. unfold logFatal.
  phased_seq 12; [eapply phased_emit; [reflexivity|lia]|apply phased_exit; lia].
Qed.

Lemma phased_call env c n lo hi :
  stage (ECall c) = Some n -> lo <= n <= hi -> n <= 11 ->
  phased lo hi (call env c).
Proof.
  intros Hc Hn Hn'. unfold call.
  phased_seq n; [eapply phased_emit; [exact Hc|lia]|].
  destruct (fails env c); phased_leaf.
Qed.

Lemma phased_inquirer_prompt env q n lo hi :
  stage (EPrompt q) = Some n -> lo <= n <= hi ->
  phased lo hi (inquirer_prompt env q).
Proof.
  intros Hq Hn. unfold inquirer_prompt.
  phased_seq n; [eapply phased_emit; [exact Hq|lia]|phased_leaf].
Qed.

Lemma phased_runTask {A} lo hi title (fn : M A) :
  lo <= hi -> phased lo hi fn -> phased lo hi (runTask title fn).
Proof.
  intros Hle H. unfold runTask.
  phased_seq lo; [phased_leaf|].
  apply phased_bind with (mid := hi); [exact H|intro].
  phased_seq hi; phased_leaf.
Qed.

Lemma phased_getDir env dir : phased 1 1 (getDir env dir).
Proof.
  unfold getDir. destruct (falsy dir); [|phased_leaf].
  apply phased_inquirer_prompt with (n := 1); [reflexivity|lia].
Qed.

Lemma phased_getName env name : phased 4 4 (getName env name).
Proof.
  unfold getName. destruct (falsy name); [|phased_leaf].
  apply phased_inquirer_prompt with (n := 4); [reflexivity|lia].
Qed.

Lemma phased_getAppId env id : phased 4 4 (getAppId env id).
Proof.
  unfold getAppId. destruct (falsy id); [|phased_leaf].
  apply phased_inquirer_prompt with (n := 4); [reflexivity|lia].
Qed.

Lemma phased_makeDirectory env dir : phased 2 3 (makeDirectory env dir).
Proof.
  unfold makeDirectory, existsAsync, mkdirAsync.
  phased_seq 2.
  { phased_seq 2; [phased_leaf|]. phased_seq 2; phased_leaf. }
  phased_seq 2.
  { destruct a; [apply phased_logFatal; lia|phased_leaf]. }
  phased_seq 3; [eapply phased_call; [reflexivity|lia|lia]|].
  intros s; simpl; lia.
Qed.

Lemma phased_create env dir appName appId : phased 7 7 (create env dir appName appId).
Proof.
  unfold create, cpAsync.
  phased_seq 7; [phased_leaf|].
  apply phased_runTask; [lia|].
  eapply phased_call; [reflexivity|lia|lia].
Qed.

Lemma phased_installDeps env dir : phased 8 8 (installDeps env dir).
Proof.
  unfold installDeps.
  apply phased_runTask; [lia|].
  eapply phased_call; [reflexivity|lia|lia].
Qed.

Lemma phased_addPlatforms env dir : phased 9 9 (addPlatforms env dir).
Proof.
  unfold addPlatforms.
  apply phased_runTask; [lia|].
  phased_seq 9; [phased_leaf|].
  phased_seq 9.
  { destruct (OS_eqb _ _); [|phased_leaf].
    phased_seq 9; eapply phased_call; first [reflexivity|lia]. }
  phased_seq 9; [eapply phased_call; first [reflexivity|lia]|].
  phased_seq 9; [phased_leaf|].
  eapply phased_call; first [reflexivity|lia].
Qed.

Lemma phased_editPlatforms env appName appId :
  phased 10 10 (editPlatforms env appName appId).
Proof.
  unfold editPlatforms.
  phased_seq 10; [phased_leaf|].
  phased_seq 10.
  { destruct (OS_eqb _ _); [|phased_leaf].
    eapply phased_call; first [reflexivity|lia]. }
  eapply phased_call; first [reflexivity|lia].
Qed.

Lemma phased_printNextSteps env : phased 11 11 (printNextSteps env).
Proof.
  unfold printNextSteps, log.
  repeat (phased_seq 11; [phased_leaf|]). phased_leaf.
Qed.

Lemma phased_createBody env dir name id : phased 0 11 (createBody env dir name id).
Proof.
  unfold createBody, log, setCurrentWorkingDir.
  phased_seq 0.
  { apply phased_check; [lia|lia|].
    repeat constructor; apply phased_run_check. }
  phased_seq 0; [phased_leaf|].
  apply phased_bind with (mid := 1);
    [apply phased_weaken with (lo := 1) (hi := 1);
       [apply phased_getDir|lia|lia]|intro appDir].
  apply phased_bind with (mid := 3);
    [apply phased_weaken with (lo := 2) (hi := 3);
       [apply phased_makeDirectory|lia|lia]|intros _].
  phased_seq 3; [phased_seq 3; phased_leaf|].
  apply phased_bind with (mid := 4);
    [apply phased_weaken with (lo := 4) (hi := 4);
       [apply phased_getName|lia|lia]|intro appName].
  apply phased_bind with (mid := 4); [apply phased_getAppId|intro appId].
  do 6 (phased_seq 5; [phased_leaf|]).
  phased_seq 6; [eapply phased_call; first [reflexivity|lia]|].
  apply phased_bind with (mid := 7);
    [apply phased_weaken with (lo := 7) (hi := 7);
       [apply phased_create|lia|lia]|intros _].
  apply phased_bind with (mid := 8);
    [apply phased_weaken with (lo := 8) (hi := 8);
       [apply phased_installDeps|lia|lia]|intros _].
  apply phased_bind with (mid := 9);
    [apply phased_weaken with (lo := 9) (hi := 9);
       [apply phased_addPlatforms|lia|lia]|intros _].
  apply phased_bind with (mid := 10);
    [apply phased_weaken with (lo := 10) (hi := 10);
       [apply phased_editPlatforms|lia|lia]|intros _].
  phased_seq 10; [phased_leaf|].
  phased_seq 11; [eapply phased_call; first [reflexivity|lia]|].
  apply phased_printNextSteps.
Qed.

Lemma phased_createCatch e : phased 11 12 (createCatch e).
Proof.
  unfold createCatch, log.
  phased_seq 11.
  { destruct (typeof_is_string e); [|phased_leaf].
    phased_seq 11; phased_leaf. }
  apply phased_logFatal; lia.
Qed.

Lemma phased_createCommand env dir name id :
  phased 0 12 (createCommand env dir name id).
Proof.
  unfold createCommand. apply phased_try_catch.
  - apply phased_weaken with (lo := 0) (hi := 11);
      [apply phased_createBody|lia|lia].
  - intro e. apply phased_createCatch.
Qed.

(** Every run of [createCommand] goes through the stages in order. *)
Lemma createCommand_stages_in_order env dir name id s :
  ascending 0 (stages (trace_of (createCommand env dir name id s))) 12.
Proof.
  pose proof (phased_createCommand env dir name id s) as H.
  destruct (outcome_of _); eapply ascending_weaken; eauto.
Qed.

(** ** Running a sequence step by step *)

Ltac run_unfold :=
  cbv [bind ret emit get throw exit modify_config modify_fs try_catch check
       run_check log logFatal runTask call existsAsync mkdirAsync cpAsync
       inquirer_prompt setCurrentWorkingDir getDir getName getAppId
       makeDirectory create installDeps addPlatforms editPlatforms
       printNextSteps createCatch prepend outcome_of state_of trace_of
       fst snd].

Lemma bind_Returned {A B} (m : M A) (f : A -> M B) s a s1 t1 :
  m s = (Returned a, s1, t1) -> bind m f s = prepend t1 (f a s1).
Proof.
  intros H. unfold bind, prepend. rewrite H.
  destruct (f a s1) as [[o s2] t2]. reflexivity.
Qed.

Lemma bind_Thrown {A B} (m : M A) (f : A -> M B) s e s1 t1 :
  m s = (Thrown e, s1, t1) -> bind m f s = (Thrown e, s1, t1).
Proof. intros H. unfold bind. rewrite H. reflexivity. Qed.

Lemma bind_Exited {A B} (m : M A) (f : A -> M B) s c s1 t1 :
  m s = (Exited c, s1, t1) -> bind m f s = (Exited c, s1, t1).
Proof. intros H. unfold bind. rewrite H. reflexivity. Qed.

Lemma try_catch_Returned {A} (body : M A) handler s a s1 t1 :
  body s = (Returned a, s1, t1) -> try_catch body handler s = (Returned a, s1, t1).
Proof. intros H. unfold try_catch. rewrite H. reflexivity. Qed.

Lemma try_catch_Thrown {A} (body : M A) handler s e s1 t1 :
  body s = (Thrown e, s1, t1) ->
  try_catch body handler s = prepend t1 (handler e s1).
Proof.
  intros H. unfold try_catch, prepend. rewrite H.
  destruct (handler e s1) as [[o s2] t2]. reflexivity.
Qed.

Lemma try_catch_Exited {A} (body : M A) handler s c s1 t1 :
  body s = (Exited c, s1, t1) -> try_catch body handler s = (Exited c, s1, t1).
Proof. intros H. unfold try_catch. rewrite H. reflexivity. Qed.

(** ** What each step does *)

Lemma createCatch_run e s :
  createCatch e s = (Exited 1%Z, s, fatal_report e).
Proof. destruct e; reflexivity. Qed.

Lemma check_three env dir name id s :
  check [run_check env CheckAppDir dir; run_check env CheckAppId id;
         run_check env CheckAppName name] s =
  (match snd (validation env s dir name id) with
   | Some msg => Thrown (JString msg)
   | None => Returned tt
   end, s, fst (validation env s dir name id)).
Proof.
  unfold validation. run_unfold.
  destruct (checkAppDir env (config s) (fs s) dir); [reflexivity|].
  destruct (checkAppId env (config s) (fs s) id); [reflexivity|].
  destruct (checkAppName env (config s) (fs s) name); reflexivity.
Qed.

Lemma getDir_run env dir s :
  getDir env dir s =
  (Returned (resolve env dirQuestion dir), s, asked dirQuestion dir).
Proof. unfold getDir, resolve, asked. destruct (falsy dir); reflexivity. Qed.

Lemma getName_run env name s :
  getName env name s =
  (Returned (resolve env nameQuestion name), s, asked nameQuestion name).
Proof. unfold getName, resolve, asked. destruct (falsy name); reflexivity. Qed.

Lemma getAppId_run env id s :
  getAppId env id s =
  (Returned (resolve env idQuestion id), s, asked idQuestion id).
Proof. unfold getAppId, resolve, asked. destruct (falsy id); reflexivity. Qed.

Lemma call_run env c s :
  call env c s =
  match fails env c with
  | Some e => (Thrown e, s, [ECall c])
  | None => (Returned tt, s, [ECall c])
  end.
Proof. run_unfold. destruct (fails env c); reflexivity. Qed.

Lemma makeDirectory_run env dir s :
  makeDirectory env dir s =
  if existsb (String.eqb dir) (fs s) then
    (Exited 1%Z, s,
     [EExists dir; ELogFatal (JString (dirExistsMessage dir)); EExit 1%Z])
  else
    match fails env (Mkdir dir) with
    | Some e => (Thrown e, s, [EExists dir; ECall (Mkdir dir)])
    | None =>
        (Returned tt, mkState (config s) (dir :: fs s),
         [EExists dir; ECall (Mkdir dir)])
    end.
Proof.
  run_unfold.
  destruct (existsb (String.eqb dir) (fs s)); [reflexivity|].
  destruct (fails env (Mkdir dir)); reflexivity.
Qed.

Lemma create_run env dir appName appId s :
  create env dir appName appId s =
  let cp := Cp (app_assets_templateDir (config s)) dir in
  match fails env cp with
  | Some e =>
      (Thrown e, s, [ETaskStart (createTitle appName dir appId); ECall cp])
  | None =>
      (Returned tt, s,
       [ETaskStart (createTitle appName dir appId); ECall cp;
        ETaskDone (createTitle appName dir appId)])
  end.
Proof.
  run_unfold.
  destruct (fails env (Cp (app_assets_templateDir (config s)) dir));
    reflexivity.
Qed.

Lemma installDeps_run env dir s :
  installDeps env dir s =
  let npm := RunCommand (installCommand dir) in
  match fails env npm with
  | Some e => (Thrown e, s, [ETaskStart "Installing dependencies"; ECall npm])
  | None =>
      (Returned tt, s,
       [ETaskStart "Installing dependencies"; ECall npm;
        ETaskDone "Installing dependencies"])
  end.
Proof.
  run_unfold. destruct (fails env (RunCommand (installCommand dir)));
    reflexivity.
Qed.

(** ** Scripts *)

Lemma cut_app env t1 t2 :
  cut env (t1 ++ t2) =
  match snd (cut env t1) with
  | Some e => cut env t1
  | None => (fst (cut env t1) ++ fst (cut env t2), snd (cut env t2))
  end.
Proof.
  induction t1 as [|e t1 IH]; simpl.
  - destruct (cut env t2); reflexivity.
  - destruct e as [| | | |c| | | | | | | |]; simpl; rewrite ?IH.
    all: try (destruct (cut env t1) as [k [err|]]; reflexivity).
    destruct (fails env c); simpl; [reflexivity|].
    destruct (cut env t1) as [k [err|]]; reflexivity.
Qed.

Lemma cut_quiet env t : calls t = [] -> cut env t = (t, None).
Proof.
  induction t as [|e t IH]; simpl; intros H; [reflexivity|].
  destruct e; simpl in H; try discriminate; rewrite (IH H); reflexivity.
Qed.

(** What [cut] keeps is the beginning of the script. *)
Lemma cut_prefix env t : exists rest, t = fst (cut env t) ++ rest.
Proof.
  induction t as [|e t [rest IH]]; simpl.
  - exists []. reflexivity.
  - destruct e as [| | | |c| | | | | | | |]; simpl;
      try (exists rest; f_equal; exact IH).
    destruct (fails env c); simpl.
    + exists t. reflexivity.
    + exists rest. f_equal. exact IH.
Qed.

Lemma cut_In env t e : In e (fst (cut env t)) -> In e t.
Proof.
  destruct (cut_prefix env t) as [rest H]. intros Hin.
  rewrite H. apply in_or_app. left. exact Hin.
Qed.

(** When no call of the script fails, nothing is cut. *)
Lemma cut_all env t :
  snd (cut env t) = None -> fst (cut env t) = t.
Proof.
  induction t as [|e t IH]; simpl; [reflexivity|].
  destruct e as [| | | |c| | | | | | | |]; simpl; intros H;
    try (f_equal; exact (IH H)).
  destruct (fails env c); simpl in *; [discriminate|].
  f_equal. exact (IH H).
Qed.

(** When a call fails, it is the last event that is kept, and the calls
    before it do not fail. *)
Lemma cut_failure env t e :
  snd (cut env t) = Some e ->
  exists pre c rest,
    t = pre ++ ECall c :: rest /\ fst (cut env t) = pre ++ [ECall c] /\
    fails env c = Some e /\
    (forall c', In (ECall c') pre -> fails env c' = None).
Proof.
  induction t as [|e0 t IH]; simpl; [discriminate|].
  assert (Hrec : snd (cut env t) = Some e ->
                 (forall c', e0 = ECall c' -> fails env c' = None) ->
                 exists pre c rest,
                   e0 :: t = pre ++ ECall c :: rest /\
                   e0 :: fst (cut env t) = pre ++ [ECall c] /\
                   fails env c = Some e /\
                   (forall c', In (ECall c') pre -> fails env c' = None)).
  { intros H H0. destruct (IH H) as (pre & c & rest & E1 & E2 & E3 & E4).
    exists (e0 :: pre), c, rest. simpl. rewrite <- E1, <- E2.
    repeat split; auto.
    intros c' [->|Hin]; [apply H0; reflexivity|apply E4; exact Hin]. }
  destruct e0 as [| | | |c| | | | | | | |]; simpl; intros H;
    try (apply Hrec; [exact H|intros c' Hc; discriminate]).
  destruct (fails env c) as [err|] eqn:Hc; simpl in *.
  - injection H as ->. exists [], c, t. auto.
    repeat split; auto. intros c' [].
  - apply Hrec; [exact H|]. intros c' Hc'. injection Hc' as <-. exact Hc.
Qed.

Lemma plays_eq env {A} (m : M A) s tr tr' a s' :
  plays env m s tr a s' -> tr = tr' -> plays env m s tr' a s'.
Proof. intros H <-. exact H. Qed.

Lemma plays_quiet env {A} (m : M A) s t a s' :
  m s = (Returned a, s', t) -> calls t = [] -> plays env m s t a s'.
Proof.
  intros H Hq. unfold plays. rewrite (cut_quiet env t Hq). exact H.
Qed.

Lemma plays_ret env {A} (a : A) s : plays env (ret a) s [] a s.
Proof. reflexivity. Qed.

Lemma plays_get env s : plays env get s [] s s.
Proof. reflexivity. Qed.

Lemma plays_modify_config env f s :
  plays env (modify_config f) s [] tt (mkState (f (config s)) (fs s)).
Proof. reflexivity. Qed.

Lemma plays_modify_fs env f s :
  plays env (modify_fs f) s [] tt (mkState (config s) (f (fs s))).
Proof. reflexivity. Qed.

Lemma plays_emit env e s :
  is_mutation e = false -> plays env (emit e) s [e] tt s.
Proof.
  intros H. apply plays_quiet; [reflexivity|].
  destruct e; try reflexivity; discriminate.
Qed.

Lemma plays_call env c s : plays env (call env c) s [ECall c] tt s.
Proof.
  unfold plays. rewrite call_run. simpl.
  destruct (fails env c); simpl; [exists s|]; reflexivity.
Qed.

Lemma plays_bind env {A B} (m : M A) (f : A -> M B) s tr1 a s1 tr2 b s2 :
  plays env m s tr1 a s1 -> plays env (f a) s1 tr2 b s2 ->
  plays env (bind m f) s (tr1 ++ tr2) b s2.
Proof.
  unfold plays. rewrite cut_app.
  destruct (cut env tr1) as [k1 [e|]]; simpl.
  - intros [s'' H] _. exists s''. apply bind_Thrown. exact H.
  - intros H1 H2.
    rewrite (bind_Returned _ _ _ _ _ _ H1).
    destruct (cut env tr2) as [k2 [e|]]; simpl in *.
    + destruct H2 as [s'' H2]. exists s''. rewrite H2. reflexivity.
    + rewrite H2. reflexivity.
Qed.

Ltac plays_leaf :=
  first
    [ apply plays_ret
    | apply plays_get
    | apply plays_modify_config
    | apply plays_modify_fs
    | apply plays_call
    | apply plays_emit; reflexivity ].

Ltac plays_go :=
  cbn [config fs cli_os app_rootDir app_appName app_appId
       app_bundledWebRuntime app_assets_templateDir ios_name android_name
       web_name set_rootDir set_appName set_appId set_bundledWebRuntime
       OS_eqb];
  first
    [ plays_leaf
    | eapply plays_bind; [ plays_go | cbv beta; plays_go ] ].

Lemma plays_getDir env dir s :
  plays env (getDir env dir) s (asked dirQuestion dir)
        (resolve env dirQuestion dir) s.
Proof.
  apply plays_quiet; [apply getDir_run|].
  unfold asked; destruct (falsy dir); reflexivity.
Qed.

Lemma plays_getName env name s :
  plays env (getName env name) s (asked nameQuestion name)
        (resolve env nameQuestion name) s.
Proof.
  apply plays_quiet; [apply getName_run|].
  unfold asked; destruct (falsy name); reflexivity.
Qed.

Lemma plays_getAppId env id s :
  plays env (getAppId env id) s (asked idQuestion id)
        (resolve env idQuestion id) s.
Proof.
  apply plays_quiet; [apply getAppId_run|].
  unfold asked; destruct (falsy id); reflexivity.
Qed.

Lemma plays_check env dir name id s :
  snd (validation env s dir name id) = None ->
  plays env
    (check [run_check env CheckAppDir dir; run_check env CheckAppId id;
            run_check env CheckAppName name]) s
    [ECheck CheckAppDir dir; ECheck CheckAppId id; ECheck CheckAppName name]
    tt s.
Proof.
  intros H. apply plays_quiet; [|reflexivity].
  rewrite check_three, H. f_equal.
  revert H. unfold validation.
  destruct (checkAppDir env (config s) (fs s) dir); [discriminate|].
  destruct (checkAppId env (config s) (fs s) id); [discriminate|].
  reflexivity.
Qed.

Lemma plays_makeDirectory env dir s :
  existsb (String.eqb dir) (fs s) = false ->
  plays env (makeDirectory env dir) s [EExists dir; ECall (Mkdir dir)] tt
        (mkState (config s) (dir :: fs s)).
Proof.
  intros H. unfold plays. rewrite makeDirectory_run, H. simpl.
  destruct (fails env (Mkdir dir)); simpl; [exists s|]; reflexivity.
Qed.

(** When the checks pass and the directory does not exist, the [try] block
    goes through the script of a successful run, up to the first call that
    fails. *)
Lemma createBody_plays env dir name id s :
  snd (validation env s dir name id) = None ->
  existsb (String.eqb (resolve env dirQuestion dir)) (fs s) = false ->
  exists s',
    plays env (createBody env dir name id) s
          (success_trace env (config s) dir name id) tt s'.
Proof.
  intros Hv Hex.
  destruct s as [[os root nm ident bw tpl ios android web] paths].
  destruct os; eexists; (eapply plays_eq; [unfold createBody|]).
  1, 3:
    (eapply plays_bind; [apply plays_check; exact Hv|cbv beta];
     eapply plays_bind; [apply plays_emit; reflexivity|cbv beta];
     eapply plays_bind; [apply plays_getDir|cbv beta];
     eapply plays_bind; [apply plays_makeDirectory; exact Hex|cbv beta];
     eapply plays_bind; [unfold setCurrentWorkingDir; plays_go|cbv beta];
     eapply plays_bind; [apply plays_getName|cbv beta];
     eapply plays_bind; [apply plays_getAppId|cbv beta];
     unfold create, installDeps, addPlatforms, editPlatforms, printNextSteps,
       runTask, cpAsync, log;
     plays_go).
  all: unfold success_trace, nextSteps; simpl;
    rewrite <- ?app_assoc; simpl; reflexivity.
Qed.

(** ** Every run, case by case *)

Lemma validation_passed env s dir name id :
  snd (validation env s dir name id) = None ->
  checkAppDir env (config s) (fs s) dir = None /\
  checkAppId env (config s) (fs s) id = None /\
  checkAppName env (config s) (fs s) name = None /\
  fst (validation env s dir name id) =
    [ECheck CheckAppDir dir; ECheck CheckAppId id; ECheck CheckAppName name].
Proof.
  unfold validation.
  destruct (checkAppDir env (config s) (fs s) dir); [discriminate|].
  destruct (checkAppId env (config s) (fs s) id); [discriminate|].
  simpl. auto.
Qed.

Lemma validation_failed env s dir name id :
  checkAppDir env (config s) (fs s) dir <> None \/
  checkAppId env (config s) (fs s) id <> None \/
  checkAppName env (config s) (fs s) name <> None ->
  exists msg, snd (validation env s dir name id) = Some msg.
Proof.
  unfold validation.
  destruct (checkAppDir env (config s) (fs s) dir) as [m1|];
    [intros _; exists m1; reflexivity|].
  destruct (checkAppId env (config s) (fs s) id) as [m2|];
    [intros _; exists m2; reflexivity|].
  destruct (checkAppName env (config s) (fs s) name) as [m3|];
    [intros _; exists m3; reflexivity|].
  intros [H|[H|H]]; exfalso; apply H; reflexivity.
Qed.

Lemma validation_events env s dir name id :
  Forall (fun e => is_check e = true) (fst (validation env s dir name id)).
Proof.
  unfold validation.
  destruct (checkAppDir env (config s) (fs s) dir);
    [repeat constructor|].
  destruct (checkAppId env (config s) (fs s) id); repeat constructor.
Qed.

Lemma createCommand_check_fails env dir name id s msg :
  snd (validation env s dir name id) = Some msg ->
  createCommand env dir name id s =
  (Exited 1%Z, s,
   fst (validation env s dir name id) ++ fatal_report (JString msg)).
Proof.
  intros H. unfold createCommand, createBody.
  erewrite try_catch_Thrown.
  2: { apply bind_Thrown. rewrite check_three, H. reflexivity. }
  rewrite createCatch_run. reflexivity.
Qed.

Lemma createCommand_dir_exists env dir name id s :
  snd (validation env s dir name id) = None ->
  existsb (String.eqb (resolve env dirQuestion dir)) (fs s) = true ->
  createCommand env dir name id s =
  (Exited 1%Z, s,
   fst (validation env s dir name id)
   ++ [ELog (welcome env)] ++ asked dirQuestion dir
   ++ [EExists (resolve env dirQuestion dir);
       ELogFatal (JString (dirExistsMessage (resolve env dirQuestion dir)));
       EExit 1%Z]).
Proof.
  intros Hv Hex. unfold createCommand, createBody.
  erewrite try_catch_Exited; [reflexivity|].
  erewrite bind_Returned; [|rewrite check_three, Hv; reflexivity].
  erewrite bind_Returned; [|reflexivity].
  erewrite bind_Returned; [|apply getDir_run].
  erewrite bind_Exited; [|rewrite makeDirectory_run, Hex; reflexivity].
  reflexivity.
Qed.

Lemma createCommand_script env dir name id s :
  snd (validation env s dir name id) = None ->
  existsb (String.eqb (resolve env dirQuestion dir)) (fs s) = false ->
  let script := success_trace env (config s) dir name id in
  let r := createCommand env dir name id s in
  match snd (cut env script) with
  | None => outcome_of r = Returned tt /\ trace_of r = script
  | Some e =>
      outcome_of r = Exited 1%Z /\
      trace_of r = fst (cut env script) ++ fatal_report e
  end.
Proof.
  intros Hv Hex script r.
  destruct (createBody_plays env dir name id s Hv Hex) as [s' H].
  unfold plays in H. fold script in H. subst r. unfold createCommand.
  destruct (snd (cut env script)) as [e|] eqn:Hc.
  - destruct H as [s'' H].
    rewrite (try_catch_Thrown _ _ _ _ _ _ H), createCatch_run. auto.
  - rewrite (try_catch_Returned _ _ _ _ _ _ H). split; [reflexivity|].
    change (fst (cut env script) = script). apply cut_all. exact Hc.
Qed.

(** The outcome and the trace of every run. *)
Lemma createCommand_cases env dir name id s :
  (outcome_of (createCommand env dir name id s),
   trace_of (createCommand env dir name id s)) =
  expected_run env s dir name id.
Proof.
  unfold expected_run.
  destruct (snd (validation env s dir name id)) as [msg|] eqn:Hv.
  - rewrite (createCommand_check_fails _ _ _ _ _ _ Hv). reflexivity.
  - destruct (existsb (String.eqb (resolve env dirQuestion dir)) (fs s))
      eqn:Hex.
    + rewrite (createCommand_dir_exists _ _ _ _ _ Hv Hex). reflexivity.
    + pose proof (createCommand_script env dir name id s Hv Hex) as H.
      cbv zeta in H.
      destruct (snd (cut env (success_trace env (config s) dir name id)));
        destruct H as [-> ->]; reflexivity.
Qed.

Lemma falsy_false_nonempty v : falsy v = false -> v <> EmptyString.
Proof. destruct v; [discriminate|]. intros _ H. discriminate. Qed.

Lemma fatal_report_is_report e ev :
  In ev (fatal_report e) -> is_report ev = true.
Proof.
  unfold fatal_report. destruct (typeof_is_string e); simpl;
    intuition (subst; reflexivity).
Qed.

Lemma asked_is_prompt q v ev : In ev (asked q v) -> ev = EPrompt q.
Proof.
  unfold asked. destruct (falsy v); simpl; [|contradiction].
  intros [H|[]]. symmetry. exact H.
Qed.

Lemma asked_In_success_trace env cfg dir name id q v ev :
  In ev (asked q v) ->
  (q = dirQuestion /\ v = dir) \/ (q = nameQuestion /\ v = name) \/
  (q = idQuestion /\ v = id) ->
  In ev (success_trace env cfg dir name id).
Proof.
  intros Hin Hq. unfold success_trace.
  destruct Hq as [[-> ->]|[[-> ->]|[-> ->]]].
  - apply in_or_app. right. apply in_or_app. left. exact Hin.
  - do 3 (apply in_or_app; right). apply in_or_app. left. exact Hin.
  - do 4 (apply in_or_app; right). apply in_or_app. left. exact Hin.
Qed.

(** An event of a run is a check, or belongs to the report of a failure, or
    belongs to the script of a successful run, and then the checks have
    passed. *)
Lemma createCommand_events env dir name id s ev :
  In ev (trace_of (createCommand env dir name id s)) ->
  is_check ev = true \/ is_report ev = true \/
  (snd (validation env s dir name id) = None /\
   In ev (success_trace env (config s) dir name id)).
Proof.
  intros Hin.
  pose proof (createCommand_cases env dir name id s) as H.
  unfold expected_run in H.
  destruct (snd (validation env s dir name id)) as [msg|] eqn:Hv.
  - injection H as _ Ht. rewrite Ht in Hin.
    apply in_app_or in Hin. destruct Hin as [Hin|Hin].
    + left. pose proof (validation_events env s dir name id) as F.
      rewrite Forall_forall in F. apply F. exact Hin.
    + right. left. eapply fatal_report_is_report. exact Hin.
  - destruct (existsb (String.eqb (resolve env dirQuestion dir)) (fs s)).
    + injection H as _ Ht. rewrite Ht in Hin.
      apply in_app_or in Hin. destruct Hin as [Hin|Hin].
      { left. pose proof (validation_events env s dir name id) as F.
        rewrite Forall_forall in F. apply F. exact Hin. }
      destruct Hin as [<-|Hin].
      { right. right. split; [reflexivity|].
        unfold success_trace. apply in_or_app. left. simpl. auto. }
      apply in_app_or in Hin. destruct Hin as [Hin|Hin].
      { right. right. split; [reflexivity|].
        eapply asked_In_success_trace; [exact Hin|auto]. }
      simpl in Hin. destruct Hin as [<-|[<-|[<-|[]]]].
      * right. right. split; [reflexivity|].
        unfold success_trace. do 2 (apply in_or_app; right).
        apply in_or_app. left. simpl. auto.
      * right. left. reflexivity.
      * right. left. reflexivity.
    + remember (success_trace env (config s) dir name id) as script.
      destruct (snd (cut env script)) as [e|];
        injection H as _ Ht; rewrite Ht in Hin.
      * apply in_app_or in Hin. destruct Hin as [Hin|Hin].
        { right. right. split; [reflexivity|]. eapply cut_In. exact Hin. }
        right. left. eapply fatal_report_is_report. exact Hin.
      * right. right. split; [reflexivity|exact Hin].
Qed.


(** ** The events of the script *)

Lemma falsy_true_empty v : falsy v = true -> v = EmptyString.
Proof. destruct v; [reflexivity|discriminate]. Qed.

Lemma asked_inv q v ev :
  In ev (asked q v) -> ev = EPrompt q /\ v = EmptyString.
Proof.
  unfold asked. destruct (falsy v) eqn:Hv; simpl; [|contradiction].
  intros [H|[]]. split; [symmetry; exact H|apply falsy_true_empty; exact Hv].
Qed.

(** The events of the script of a successful run, one by one. *)
Lemma success_trace_inv env cfg dir name id ev :
  In ev (success_trace env cfg dir name id) ->
  let appDir := resolve env dirQuestion dir in
  let appName := resolve env nameQuestion name in
  let appId := resolve env idQuestion id in
  (ev = EPrompt dirQuestion /\ dir = EmptyString) \/
  (ev = EPrompt nameQuestion /\ name = EmptyString) \/
  (ev = EPrompt idQuestion /\ id = EmptyString) \/
  In ev
    ([ECheck CheckAppDir dir; ECheck CheckAppId id; ECheck CheckAppName name;
      ELog (welcome env);
      EExists appDir; ECall (Mkdir appDir); ESetCwd appDir;
      ESetAppName appName; ESetAppId appId; ESetBundledWebRuntime true;
      ECall GetOrCreateConfig;
      ETaskStart (createTitle appName appDir appId);
      ECall (Cp (app_assets_templateDir cfg) appDir);
      ETaskDone (createTitle appName appDir appId);
      ETaskStart "Installing dependencies";
      ECall (RunCommand (installCommand appDir));
      ETaskDone "Installing dependencies";
      ETaskStart "add default platforms";
      ECall AddIOS; ECall (Sync (ios_name cfg));
      ECall AddAndroid; ECall (Sync (android_name cfg));
      ETaskDone "add default platforms";
      ECall EditProjectSettingsIOS;
      ECall EditProjectSettingsAndroid; ECall (Copy (web_name cfg))]
     ++ nextSteps env (rootDirFor env appDir)).
Proof.
  intros H appDir appName appId. unfold success_trace in H.
  fold appDir appName appId in H.
  repeat (apply in_app_or in H; destruct H as [H|H]);
    try (apply asked_inv in H; tauto);
    do 3 right.
  - simpl in H. simpl. tauto.
  - simpl in H. simpl. tauto.
  - simpl in H. simpl. tauto.
  - destruct (OS_eqb (cli_os cfg) Mac); simpl in H; simpl; tauto.
  - simpl in H. simpl. tauto.
  - destruct (OS_eqb (cli_os cfg) Mac); simpl in H; simpl; tauto.
  - simpl in H. simpl. tauto.
  - apply in_or_app. right. exact H.
Qed.

Lemma not_report_in_script env dir name id s ev :
  In ev (trace_of (createCommand env dir name id s)) ->
  is_check ev = false -> is_report ev = false ->
  In ev (success_trace env (config s) dir name id).
Proof.
  intros Hin Hc Hr.
  destruct (createCommand_events env dir name id s ev Hin) as [H|[H|[_ H]]];
    [rewrite H in Hc; discriminate|rewrite H in Hr; discriminate|exact H].
Qed.

(** ** Two scenarios *)

(** A run on a host that is not macOS with the three arguments given. *)
Example scenario_all_given :
  let r := createCommand (lenientEnv nothing_typed nothing_fails)
             "myapp" "My App" "com.example.myapp" (sampleState OtherOS []) in
  outcome_of r = Returned tt /\
  fs (state_of r) = ["myapp"] /\
  calls (trace_of r) =
    [Mkdir "myapp"; GetOrCreateConfig;
     Cp "/cli/assets/app-template" "myapp";
     RunCommand (installCommand "myapp");
     AddAndroid; Sync "android"; EditProjectSettingsAndroid; Copy "www"] /\
  In (ELog "cd ./myapp") (trace_of r).
Proof.
  repeat split. apply (nth_error_In _ 25). reflexivity.
Qed.

(** A run on macOS with no directory given: the directory is typed at the
    prompt. *)
Example scenario_directory_typed :
  let r := createCommand (lenientEnv (fun _ => "my-app") nothing_fails)
             EmptyString "My App" "com.example.myapp" (sampleState Mac []) in
  outcome_of r = Returned tt /\
  fs (state_of r) = ["my-app"] /\
  platform_calls (trace_of r) =
    [AddIOS; Sync "ios"; AddAndroid; Sync "android";
     EditProjectSettingsIOS; EditProjectSettingsAndroid] /\
  In (ELog "cd ./my-app") (trace_of r).
Proof.
  repeat split. apply (nth_error_In _ 29). reflexivity.
Qed.

(** A run with no argument given stops at the checks. *)
Example scenario_nothing_given :
  createCommand (lenientEnv nothing_typed nothing_fails)
    EmptyString EmptyString EmptyString (sampleState Mac []) =
  (Exited 1%Z, sampleState Mac [],
   [ECheck CheckAppDir EmptyString; ECheck CheckAppId EmptyString;
    ELog usageLine; ELog exampleLine;
    ELogFatal (JString "Invalid App ID"); EExit 1%Z]).
Proof. reflexivity. Qed.

(** ** The claims *)







Lemma calls_app t1 t2 : calls (t1 ++ t2) = calls t1 ++ calls t2.
Proof. unfold calls. apply flat_map_app. Qed.

Lemma calls_validation env s dir name id :
  calls (fst (validation env s dir name id)) = [].
Proof.
  unfold validation.
  destruct (checkAppDir env (config s) (fs s) dir); [reflexivity|].
  destruct (checkAppId env (config s) (fs s) id); reflexivity.
Qed.

Lemma calls_fatal_report e : calls (fatal_report e) = [].
Proof. destruct e; reflexivity. Qed.

Lemma calls_asked q v : calls (asked q v) = [].
Proof. unfold asked. destruct (falsy v); reflexivity. Qed.

Lemma stage_of_mutation e :
  is_mutation e = true -> exists n, stage e = Some n /\ 2 < n.
Proof.
  destruct e as [| | | |c| | | | | | | |]; try discriminate. intros _.
  destruct c; simpl; eexists; split; try reflexivity; lia.
Qed.

Lemma checks_precede_mutations env dir name id s :
  precedes is_check is_mutation (trace_of (createCommand env dir name id s)).
Proof.
  apply (ascending_precedes _ _ _ 0 _ _
           (createCommand_stages_in_order env dir name id s)).
  - intros [] H; try discriminate. exists 0. auto.
  - intros e H. destruct (stage_of_mutation e H) as (n & Hn & Hlt).
    exists n. split; [exact Hn|lia].
Qed.



(** C3.  In every run the validation checks come before every call that
    changes the disk or runs a subprocess; and when a check fails, the run
    ends fatally without any such call and leaves the state, the existing
    directories included, as it was. *)
Theorem C3_validation_failure env dir name id s :
  let r := createCommand env dir name id s in
  precedes is_check is_mutation (trace_of r) /\
  (checkAppDir env (config s) (fs s) dir <> None \/
   checkAppId env (config s) (fs s) id <> None \/
   checkAppName env (config s) (fs s) name <> None ->
   outcome_of r = Exited 1%Z /\ state_of r = s /\ calls (trace_of r) = []).
Proof.
  intros r. split; [apply checks_precede_mutations|].
  intros H. destruct (validation_failed env s dir name id H) as [msg Hv].
  subst r. rewrite (createCommand_check_fails _ _ _ _ _ _ Hv).
  repeat split. unfold trace_of; cbn [snd].
  rewrite calls_app, calls_validation, calls_fatal_report. reflexivity.
Qed.

Lemma C3_validation_failure_witness :
  let r := createCommand (sampleEnv nothing_typed nothing_fails)
             "my-app" "My App" "my app" (sampleState Mac []) in
  outcome_of r = Exited 1%Z /\ state_of r = sampleState Mac [] /\
  calls (trace_of r) = [].
Proof.
  apply (proj2 (C3_validation_failure (sampleEnv nothing_typed nothing_fails)
                  "my-app" "My App" "my app" (sampleState Mac []))).
  right. left. vm_compute. discriminate.
Defined.

(** C4.  When the path handed to [makeDirectory] exists, the run ends
    fatally with a message that names the path: the directory is not made
    and whatever comes next is not run.  In a run of [createCommand] whose
    directory exists, no collaborator is called: no configuration file is
    written, no template is copied, no dependency is installed and no
    platform is added. *)
Theorem C4_existing_directory env :
  (forall path s (rest : M unit),
     existsb (String.eqb path) (fs s) = true ->
     try_catch (makeDirectory env path;; rest) createCatch s =
     (Exited 1%Z, s,
      [EExists path;
       ELogFatal
         (JString
            ("The directory " ++ path ++
             " already exists. Please remove it before creating your app")%string);
       EExit 1%Z])) /\
  (forall dir name id s,
     let path := if falsy dir then answer env dirQuestion else dir in
     let r := createCommand env dir name id s in
     existsb (String.eqb path) (fs s) = true ->
     outcome_of r = Exited 1%Z /\ state_of r = s /\ calls (trace_of r) = [] /\
     (checkAppDir env (config s) (fs s) dir = None ->
      checkAppId env (config s) (fs s) id = None ->
      checkAppName env (config s) (fs s) name = None ->
      exists pre,
        trace_of r =
        pre ++ [EExists path; ELogFatal (JString (dirExistsMessage path));
                EExit 1%Z])).
Proof.
  split.
  - intros path s rest Hex.
    erewrite try_catch_Exited; [reflexivity|].
    erewrite bind_Exited; [reflexivity|].
    rewrite makeDirectory_run, Hex. reflexivity.
  - intros dir name id s path r Hex.
    change path with (resolve env dirQuestion dir) in *.
    destruct (snd (validation env s dir name id)) as [msg|] eqn:Hv.
    + subst r. rewrite (createCommand_check_fails _ _ _ _ _ _ Hv).
      repeat split.
      * unfold trace_of; cbn [snd].
        rewrite calls_app, calls_validation, calls_fatal_report. reflexivity.
      * intros H1 H2 H3. unfold validation in Hv.
        rewrite H1, H2 in Hv. simpl in Hv. congruence.
    + subst r. rewrite (createCommand_dir_exists _ _ _ _ _ Hv Hex).
      repeat split.
      * unfold trace_of; cbn [snd].
        rewrite !calls_app, calls_validation, calls_asked. reflexivity.
      * intros _ _ _. unfold trace_of; cbn [snd].
        exists (fst (validation env s dir name id) ++ [ELog (welcome env)]
                ++ asked dirQuestion dir).
        rewrite <- !app_assoc. reflexivity.
Qed.

Lemma C4_existing_directory_witness :
  let r := createCommand (lenientEnv nothing_typed nothing_fails)
             "my-app" "My App" "com.example.myapp"
             (sampleState Mac ["my-app"]) in
  outcome_of r = Exited 1%Z /\ state_of r = sampleState Mac ["my-app"] /\
  calls (trace_of r) = [].
Proof.
  pose proof
    (proj2 (C4_existing_directory (lenientEnv nothing_typed nothing_fails))
       "my-app" "My App" "com.example.myapp" (sampleState Mac ["my-app"])
       eq_refl) as H.
  destruct H as (H1 & H2 & H3 & _). repeat split; assumption.
Defined.

Lemma In_calls c t : In (ECall c) t <-> In c (calls t).
Proof.
  induction t as [|e t IH]; simpl; [tauto|].
  destruct e; simpl; rewrite <- ?IH;
    try (split; [intros [H|H]; [discriminate|exact H]|auto]).
  split.
  - intros [H|H]; [injection H as ->; auto|auto].
  - intros [->|H]; auto.
Qed.

Lemma cut_none_no_failure env t c :
  snd (cut env t) = None -> In (ECall c) t -> fails env c = None.
Proof.
  induction t as [|e t IH]; simpl; [contradiction|].
  destruct e as [| | | |c0| | | | | | | |]; simpl; intros H [E|Hin];
    try discriminate; try (apply IH; assumption).
  - injection E as ->. destruct (fails env c); [discriminate|reflexivity].
  - destruct (fails env c0); [discriminate|]. apply IH; assumption.
Qed.

Lemma cut_no_failure env t :
  (forall c, In (ECall c) t -> fails env c = None) -> snd (cut env t) = None.
Proof.
  induction t as [|e t IH]; simpl; intros H; [reflexivity|].
  destruct e as [| | | |c0| | | | | | | |]; simpl;
    try (apply IH; intros k Hk; apply H; right; exact Hk).
  rewrite (H c0) by (left; reflexivity).
  simpl. apply IH. intros k Hk. apply H. right. exact Hk.
Qed.

Lemma platform_calls_app t1 t2 :
  platform_calls (t1 ++ t2) = platform_calls t1 ++ platform_calls t2.
Proof. unfold platform_calls. rewrite calls_app. apply filter_app. Qed.

Lemma platform_calls_quiet t : calls t = [] -> platform_calls t = [].
Proof. unfold platform_calls. intros ->. reflexivity. Qed.

Lemma platform_calls_success_trace env cfg dir name id :
  platform_calls (success_trace env cfg dir name id) =
  expected_platform_calls cfg.
Proof.
  unfold success_trace, expected_platform_calls.
  rewrite !platform_calls_app.
  rewrite !(platform_calls_quiet (asked _ _)) by apply calls_asked.
  destruct (cli_os cfg); reflexivity.
Qed.

Lemma calls_bootstrap_script cfg :
  calls (bootstrap_script cfg) = expected_platform_calls cfg.
Proof.
  unfold bootstrap_script, expected_platform_calls.
  destruct (cli_os cfg); reflexivity.
Qed.

Lemma bootstrap_plays env dir appName appId s :
  plays env (addPlatforms env dir;; editPlatforms env appName appId) s
        (bootstrap_script (config s)) tt s.
Proof.
  destruct s as [[os root nm ident bw tpl ios android web] paths].
  destruct os; (eapply plays_eq;
    [unfold addPlatforms, editPlatforms, runTask; plays_go|reflexivity]).
Qed.

(** A run that returns has followed the whole script. *)
Lemma createCommand_success env dir name id s :
  outcome_of (createCommand env dir name id s) = Returned tt ->
  trace_of (createCommand env dir name id s) =
    success_trace env (config s) dir name id /\
  snd (validation env s dir name id) = None /\
  snd (cut env (success_trace env (config s) dir name id)) = None.
Proof.
  intros Ho.
  pose proof (createCommand_cases env dir name id s) as H.
  rewrite Ho in H. unfold expected_run in H.
  remember (success_trace env (config s) dir name id) as script.
  destruct (snd (validation env s dir name id)); [discriminate|].
  destruct (existsb _ _); [discriminate|].
  destruct (snd (cut env script)); [discriminate|].
  injection H as ->. auto.
Qed.

Lemma calls_dir_exists_trace env s dir name id path e :
  calls (fst (validation env s dir name id)
         ++ [ELog (welcome env)] ++ asked dirQuestion dir
         ++ [EExists path; ELogFatal e; EExit 1%Z]) = [].
Proof. rewrite !calls_app, calls_validation, calls_asked. reflexivity. Qed.

(** When a call fails, the run ends with that call and the fatal report. *)
Lemma createCommand_fail_stop env dir name id s c e :
  In (ECall c) (trace_of (createCommand env dir name id s)) ->
  fails env c = Some e ->
  outcome_of (createCommand env dir name id s) = Exited 1%Z /\
  exists pre,
    trace_of (createCommand env dir name id s) =
    pre ++ ECall c :: fatal_report e.
Proof.
  intros Hin Hc.
  pose proof (createCommand_cases env dir name id s) as H.
  unfold expected_run in H.
  remember (success_trace env (config s) dir name id) as script.
  assert (Hquiet : forall t, calls t = [] -> ~ In (ECall c) t).
  { intros t Ht Hi. apply In_calls in Hi. rewrite Ht in Hi. exact Hi. }
  destruct (snd (validation env s dir name id)) as [msg|].
  - injection H as Ho Ht. rewrite Ht in Hin. exfalso.
    revert Hin. apply Hquiet.
    rewrite calls_app, calls_validation, calls_fatal_report. reflexivity.
  - destruct (existsb _ _).
    + injection H as Ho Ht. rewrite Ht in Hin. exfalso.
      revert Hin. apply Hquiet. apply calls_dir_exists_trace.
    + destruct (snd (cut env script)) as [e0|] eqn:Hcut;
        injection H as Ho Ht; rewrite Ht in Hin |- *.
      * split; [exact Ho|].
        destruct (cut_failure env script e0 Hcut)
          as (pre & c0 & rest & E1 & E2 & E3 & E4).
        rewrite E2 in Hin |- *.
        apply in_app_or in Hin. destruct Hin as [Hin|Hin].
        { apply in_app_or in Hin. destruct Hin as [Hin|[Hin|[]]].
          - rewrite (E4 c Hin) in Hc. discriminate.
          - injection Hin as ->. rewrite E3 in Hc. injection Hc as ->.
            exists pre. rewrite <- app_assoc. reflexivity. }
        apply fatal_report_is_report in Hin. discriminate.
      * rewrite (cut_none_no_failure env script c Hcut Hin) in Hc.
        discriminate.
Qed.

(** C5.  The platform calls of a bootstrap are the calls of the host, in
    their order: on macOS [addIOS], [sync] of the iOS project, [addAndroid],
    [sync] of the Android project, [editProjectSettingsIOS],
    [editProjectSettingsAndroid]; on another host the three Android calls
    only.  A call that fails ends the sequence, so the calls that are made
    always form the beginning of that list, and they form the whole list
    when no call fails.  On a host that is not macOS no iOS collaborator is
    called.  The same holds for the platform calls of a whole run of
    [createCommand]. *)
Theorem C5_platform_bootstrap env :
  (forall dir appName appId s,
     let r := (addPlatforms env dir;; editPlatforms env appName appId) s in
     (exists rest,
        calls (trace_of r) ++ rest = expected_platform_calls (config s)) /\
     ((forall c, In c (expected_platform_calls (config s)) ->
                 fails env c = None) ->
      outcome_of r = Returned tt /\
      calls (trace_of r) = expected_platform_calls (config s)) /\
     (cli_os (config s) <> Mac ->
      ~ In AddIOS (calls (trace_of r)) /\
      ~ In EditProjectSettingsIOS (calls (trace_of r)) /\
      (ios_name (config s) <> android_name (config s) ->
       ~ In (Sync (ios_name (config s))) (calls (trace_of r))))) /\
  (forall dir name id s,
     let r := createCommand env dir name id s in
     (exists rest,
        platform_calls (trace_of r) ++ rest =
        expected_platform_calls (config s)) /\
     (outcome_of r = Returned tt ->
      platform_calls (trace_of r) = expected_platform_calls (config s))).
Proof.
  split.
  - intros dir appName appId s r.
    pose proof (bootstrap_plays env dir appName appId s) as Hp.
    unfold plays in Hp. fold r in Hp.
    assert (Htr : trace_of r = fst (cut env (bootstrap_script (config s)))).
    { destruct (snd (cut env (bootstrap_script (config s))));
        [destruct Hp as [s'' Hp]|]; rewrite Hp; reflexivity. }
    assert (Hpre : exists rest,
               calls (trace_of r) ++ rest = expected_platform_calls (config s)).
    { destruct (cut_prefix env (bootstrap_script (config s))) as [rest Hr].
      exists (calls rest).
      rewrite Htr, <- calls_app, <- Hr. apply calls_bootstrap_script. }
    split; [exact Hpre|]. split.
    + intros Hok.
      assert (Hc : snd (cut env (bootstrap_script (config s))) = None).
      { apply cut_no_failure. intros c Hin. apply Hok.
        rewrite <- calls_bootstrap_script. apply In_calls. exact Hin. }
      rewrite Hc in Hp. rewrite Hp. split; [reflexivity|].
      unfold trace_of; cbn [snd]. rewrite (cut_all _ _ Hc).
      apply calls_bootstrap_script.
    + intros Hos. destruct Hpre as [rest Hr].
      assert (Hin : forall c, In c (calls (trace_of r)) ->
                In c [AddAndroid; Sync (android_name (config s));
                      EditProjectSettingsAndroid]).
      { intros c Hc. unfold expected_platform_calls in Hr.
        destruct (cli_os (config s)); [contradiction|].
        rewrite <- Hr. apply in_or_app. left. exact Hc. }
      repeat split.
      * intros H. apply Hin in H. simpl in H.
        decompose [or] H; discriminate || assumption.
      * intros H. apply Hin in H. simpl in H.
        decompose [or] H; discriminate || assumption.
      * intros Hne H. apply Hin in H. simpl in H.
        decompose [or] H; try discriminate; try assumption.
        match goal with E : Sync _ = Sync _ |- _ => injection E as E end.
        apply Hne. symmetry. assumption.
  - intros dir name id s r.
    pose proof (createCommand_cases env dir name id s) as H.
    fold r in H. unfold expected_run in H.
    pose proof (platform_calls_success_trace env (config s) dir name id) as Hs.
    remember (success_trace env (config s) dir name id) as script.
    destruct (snd (validation env s dir name id)) as [msg|].
    { injection H as Ho Ht. rewrite Ho, Ht. split; [|discriminate].
      exists (expected_platform_calls (config s)).
      rewrite platform_calls_quiet; [reflexivity|].
      rewrite calls_app, calls_validation, calls_fatal_report. reflexivity. }
    destruct (existsb _ _).
    { injection H as Ho Ht. rewrite Ho, Ht. split; [|discriminate].
      exists (expected_platform_calls (config s)).
      rewrite platform_calls_quiet; [reflexivity|].
      apply calls_dir_exists_trace. }
    destruct (snd (cut env script)) as [e|] eqn:Hc;
      injection H as Ho Ht; rewrite Ho, Ht.
    + split; [|discriminate].
      destruct (cut_prefix env script) as [rest Hr].
      exists (platform_calls rest).
      rewrite platform_calls_app.
      rewrite (platform_calls_quiet (fatal_report e))
        by apply calls_fatal_report.
      rewrite app_nil_r, <- platform_calls_app, <- Hr. exact Hs.
    + split; [exists []; rewrite app_nil_r; exact Hs|intros _; exact Hs].
Qed.

Lemma C5_platform_bootstrap_witness :
  let r := (addPlatforms (lenientEnv nothing_typed nothing_fails) "my-app";;
            editPlatforms (lenientEnv nothing_typed nothing_fails)
              "My App" "com.example.myapp") (sampleState Mac ["my-app"]) in
  outcome_of r = Returned tt /\
  calls (trace_of r) =
    [AddIOS; Sync "ios"; AddAndroid; Sync "android";
     EditProjectSettingsIOS; EditProjectSettingsAndroid].
Proof.
  apply (proj1 (proj2
    (proj1 (C5_platform_bootstrap (lenientEnv nothing_typed nothing_fails))
       "my-app" "My App" "com.example.myapp" (sampleState Mac ["my-app"])))).
  intros c _. reflexivity.
Defined.

(** C6.  [getDir], [getName] and [getAppId] give back a value of the caller
    that is not empty as it is, without a prompt.  For an empty value they
    prompt: an empty line at the prompt for the name yields [App], an empty
    line at the prompt for the identifier yields [com.example.app], and the
    line typed at the prompt for the directory is passed on as it is, the
    empty line included. *)
Theorem C6_input_resolution env s :
  (forall v, v <> EmptyString ->
     getDir env v s = (Returned v, s, []) /\
     getName env v s = (Returned v, s, []) /\
     getAppId env v s = (Returned v, s, [])) /\
  getDir env EmptyString s =
    (Returned (typed env "dir"), s, [EPrompt dirQuestion]) /\
  getName env EmptyString s =
    (Returned (if falsy (typed env "name") then "App" else typed env "name"),
     s, [EPrompt nameQuestion]) /\
  getAppId env EmptyString s =
    (Returned (if falsy (typed env "id") then "com.example.app"
               else typed env "id"),
     s, [EPrompt idQuestion]).
Proof.
  repeat split.
  - destruct v; [contradiction|reflexivity].
  - destruct v; [contradiction|reflexivity].
  - destruct v; [contradiction|reflexivity].
  - run_unfold. unfold answer. simpl.
    destruct (falsy (typed env "dir")); reflexivity.
Qed.

Lemma C6_input_resolution_witness :
  getDir (lenientEnv nothing_typed nothing_fails) "my-app"
         (sampleState Mac []) =
  (Returned "my-app", sampleState Mac [], []).
Proof.
  apply (proj1 (C6_input_resolution
                  (lenientEnv nothing_typed nothing_fails)
                  (sampleState Mac []))).
  discriminate.
Defined.

Lemma check_app checks1 checks2 s :
  check (checks1 ++ checks2) s = (check checks1;; check checks2) s.
Proof.
  revert s. induction checks1 as [|c rest IH]; intros s; simpl.
  - unfold bind, ret. destruct (check checks2 s) as [[[a|e|k] s1] t1];
      reflexivity.
  - unfold bind. destruct (c s) as [[[r|e|k] s1] t1]; try reflexivity.
    destruct r as [msg|].
    + reflexivity.
    + rewrite IH. unfold bind.
      destruct (check rest s1) as [[[a|e|k] s2] t2]; try reflexivity.
      destruct (check checks2 s2) as [[o s3] t3].
      rewrite app_assoc. reflexivity.
Qed.

(** C7.  [check] runs the checks in sequence: when the checks of [before]
    pass and the next check fails with a message, [check] throws that
    message as a plain string, and the state and the trace are those left by
    the failing check, whatever the checks [after] are: they are not run.
    For the three checks of [createCommand], the checks that are run are
    [checkAppDir], [checkAppId], [checkAppName], in that order, up to the
    first that fails. *)
Theorem C7_check_fail_fast :
  (forall (before after : list (M (option string))) (c : M (option string))
          s s1 t1 s2 t2 msg,
     check before s = (Returned tt, s1, t1) ->
     c s1 = (Returned (Some msg), s2, t2) ->
     check (before ++ c :: after) s = (Thrown (JString msg), s2, t1 ++ t2)) /\
  (forall env dir name id s,
     check [run_check env CheckAppDir dir; run_check env CheckAppId id;
            run_check env CheckAppName name] s =
     match checkAppDir env (config s) (fs s) dir with
     | Some msg => (Thrown (JString msg), s, [ECheck CheckAppDir dir])
     | None =>
         match checkAppId env (config s) (fs s) id with
         | Some msg =>
             (Thrown (JString msg), s,
              [ECheck CheckAppDir dir; ECheck CheckAppId id])
         | None =>
             match checkAppName env (config s) (fs s) name with
             | Some msg =>
                 (Thrown (JString msg), s,
                  [ECheck CheckAppDir dir; ECheck CheckAppId id;
                   ECheck CheckAppName name])
             | None =>
                 (Returned tt, s,
                  [ECheck CheckAppDir dir; ECheck CheckAppId id;
                   ECheck CheckAppName name])
             end
         end
     end).
Proof.
  split.
  - intros before after c s s1 t1 s2 t2 msg Hb Hc.
    rewrite check_app. rewrite (bind_Returned _ _ _ _ _ _ Hb).
    simpl. rewrite (bind_Returned _ _ _ _ _ _ Hc).
    unfold prepend, throw, outcome_of, state_of, trace_of. simpl.
    rewrite app_nil_r. reflexivity.
  - intros env dir name id s. rewrite check_three. unfold validation.
    destruct (checkAppDir env (config s) (fs s) dir); [reflexivity|].
    destruct (checkAppId env (config s) (fs s) id); [reflexivity|].
    destruct (checkAppName env (config s) (fs s) name); reflexivity.
Qed.

Lemma C7_check_fail_fast_witness :
  check ([passing_check] ++ failing_check :: [passing_check; passing_check])
        (sampleState Mac []) =
  (Thrown (JString "Invalid App ID"), sampleState Mac [],
   [ECheck CheckAppDir "my-app"] ++ [ECheck CheckAppId "my app"]).
Proof.
  apply (proj1 C7_check_fail_fast
               [passing_check] [passing_check; passing_check] failing_check
               (sampleState Mac []) (sampleState Mac [])
               [ECheck CheckAppDir "my-app"] (sampleState Mac [])
               [ECheck CheckAppId "my app"] "Invalid App ID").
  - reflexivity.
  - reflexivity.
Defined.

(** C8.  For every failure that the [catch] block receives, the two usage
    lines are printed exactly when the failure is a plain string, then the
    failure is reported by [logFatal] and the process exits with status 1.
    So a run of [createCommand] whose [try] block throws ends in that
    way. *)
Theorem C8_failure_report :
  (forall e s,
     createCatch e s =
     (Exited 1%Z, s,
      (if typeof_is_string e then [ELog usageLine; ELog exampleLine] else [])
      ++ [ELogFatal e; EExit 1%Z]) /\
     (In (ELog usageLine) (trace_of (createCatch e s)) <->
      typeof_is_string e = true)) /\
  (forall env dir name id s e s1 t1,
     createBody env dir name id s = (Thrown e, s1, t1) ->
     createCommand env dir name id s =
     (Exited 1%Z, s1,
      t1
      ++ (if typeof_is_string e then [ELog usageLine; ELog exampleLine]
          else [])
      ++ [ELogFatal e; EExit 1%Z])).
Proof.
  split.
  - intros e s. split; [apply createCatch_run|].
    rewrite createCatch_run. unfold trace_of, fatal_report; cbn [snd].
    destruct e; simpl; split; intros H; try reflexivity; try discriminate.
    + left. reflexivity.
    + decompose [or] H; discriminate || contradiction.
  - intros env dir name id s e s1 t1 H. unfold createCommand.
    rewrite (try_catch_Thrown _ _ _ _ _ _ H), createCatch_run. reflexivity.
Qed.

Lemma C8_failure_report_witness :
  createCommand (lenientEnv nothing_typed cp_fails)
    "my-app" "My App" "com.example.myapp" (sampleState OtherOS []) =
  (Exited 1%Z,
   mkState
     (mkConfig OtherOS "/work/my-app" "My App" "com.example.myapp" true
        "/cli/assets/app-template" "ios" "android" "www")
     ["my-app"],
   [ECheck CheckAppDir "my-app"; ECheck CheckAppId "com.example.myapp";
    ECheck CheckAppName "My App"; ELog "Welcome to Capacitor (CLI v1.0.0)";
    EExists "my-app"; ECall (Mkdir "my-app"); ESetCwd "my-app";
    ESetAppName "My App"; ESetAppId "com.example.myapp";
    ESetBundledWebRuntime true; ECall GetOrCreateConfig;
    ETaskStart "Creating app My App in my-app with id com.example.myapp";
    ECall (Cp "/cli/assets/app-template" "my-app")]
   ++ [] ++ [ELogFatal (JError "EACCES: permission denied"); EExit 1%Z]).
Proof.
  apply (proj2 C8_failure_report (lenientEnv nothing_typed cp_fails)
               "my-app" "My App" "com.example.myapp" (sampleState OtherOS [])
               (JError "EACCES: permission denied")).
  reflexivity.
Defined.

(** C9.  The template is instantiated in two tasks, one after the other:
    the task that copies [config.app.assets.templateDir] into the directory
    of the application, then the task that runs
    [npm install --save @capacitor/cli @capacitor/core] in that directory.
    When the copy fails the installation is not started, and when either
    fails nothing of what comes next is run.  In a run of [createCommand],
    a collaborator call that fails is the last call: the run ends with it
    and the fatal report. *)
Theorem C9_template_instantiation env :
  (forall dir appName appId s (rest : M unit),
     let cp := Cp (app_assets_templateDir (config s)) dir in
     let npm :=
       RunCommand
         ("cd " ++ dq ++ dir ++ dq ++
          " && npm install --save @capacitor/cli @capacitor/core")%string in
     let copying := createTitle appName dir appId in
     let installing := "Installing dependencies" in
     (create env dir appName appId;; installDeps env dir;; rest) s =
     match fails env cp with
     | Some e => (Thrown e, s, [ETaskStart copying; ECall cp])
     | None =>
         match fails env npm with
         | Some e =>
             (Thrown e, s,
              [ETaskStart copying; ECall cp; ETaskDone copying;
               ETaskStart installing; ECall npm])
         | None =>
             prepend
               [ETaskStart copying; ECall cp; ETaskDone copying;
                ETaskStart installing; ECall npm; ETaskDone installing]
               (rest s)
         end
     end) /\
  (forall dir name id s c e,
     let r := createCommand env dir name id s in
     In (ECall c) (trace_of r) -> fails env c = Some e ->
     outcome_of r = Exited 1%Z /\
     exists pre,
       trace_of r =
       pre ++ [ECall c]
       ++ (if typeof_is_string e then [ELog usageLine; ELog exampleLine]
           else [])
       ++ [ELogFatal e; EExit 1%Z]).
Proof.
  split.
  - intros dir appName appId s rest. cbv zeta.
    fold (installCommand dir).
    destruct (fails env (Cp (app_assets_templateDir (config s)) dir))
      as [e|] eqn:Hcp.
    { erewrite bind_Thrown; [reflexivity|].
      rewrite create_run. cbv zeta. rewrite Hcp. reflexivity. }
    erewrite bind_Returned;
      [|rewrite create_run; cbv zeta; rewrite Hcp; reflexivity].
    destruct (fails env (RunCommand (installCommand dir))) as [e|] eqn:Hnpm.
    { erewrite bind_Thrown; [reflexivity|].
      rewrite installDeps_run. cbv zeta. rewrite Hnpm. reflexivity. }
    erewrite bind_Returned;
      [|rewrite installDeps_run; cbv zeta; rewrite Hnpm; reflexivity].
    unfold prepend, outcome_of, state_of, trace_of.
    destruct (rest s) as [[o s'] t]. reflexivity.
  - intros dir name id s c e r Hin Hc.
    destruct (createCommand_fail_stop env dir name id s c e Hin Hc)
      as [Ho [pre Ht]].
    split; [exact Ho|]. exists pre. exact Ht.
Qed.

Lemma C9_template_instantiation_witness :
  let r := createCommand (lenientEnv nothing_typed cp_fails)
             "my-app" "My App" "com.example.myapp" (sampleState OtherOS []) in
  outcome_of r = Exited 1%Z /\
  exists pre,
    trace_of r =
    pre ++ [ECall (Cp "/cli/assets/app-template" "my-app")]
    ++ [] ++ [ELogFatal (JError "EACCES: permission denied"); EExit 1%Z].
Proof.
  apply (proj2 (C9_template_instantiation (lenientEnv nothing_typed cp_fails))
               "my-app" "My App" "com.example.myapp" (sampleState OtherOS [])
               (Cp "/cli/assets/app-template" "my-app")
               (JError "EACCES: permission denied")).
  - apply (nth_error_In _ 12). reflexivity.
  - reflexivity.
Defined.

Lemma success_trace_ends env cfg dir name id :
  exists pre,
    success_trace env cfg dir name id =
    pre ++ [ECall EditProjectSettingsAndroid; ECall (Copy (web_name cfg))]
    ++ nextSteps env (rootDirFor env (resolve env dirQuestion dir)) /\
    forall n, ~ In (ECall (Copy n)) pre.
Proof.
  unfold success_trace.
  eexists. split.
  - etransitivity; [do 8 rewrite app_assoc; reflexivity|reflexivity].
  - intros n H.
    repeat (apply in_app_or in H; destruct H as [H|H]);
      try (apply asked_is_prompt in H; discriminate);
      try (destruct (OS_eqb (cli_os cfg) Mac));
      simpl in H; decompose [or] H; discriminate || contradiction.
Qed.

(** C10.  A run that succeeds ends with [editProjectSettingsAndroid], then
    [copy(config, config.web.name)], then the four lines of the final
    report, which names the root directory that the configuration holds for
    the resolved directory; it makes no other call to [copy]. *)
Theorem C10_web_copy env dir name id s :
  let r := createCommand env dir name id s in
  outcome_of r = Returned tt ->
  exists pre,
    trace_of r =
    pre
    ++ [ECall EditProjectSettingsAndroid; ECall (Copy (web_name (config s)))]
    ++ nextSteps env
         (rootDirFor env (if falsy dir then answer env dirQuestion else dir))
    /\
    forall n, ~ In (ECall (Copy n)) pre.
Proof.
  intros r Ho.
  destruct (createCommand_success env dir name id s Ho) as (Ht & _ & _).
  subst r. rewrite Ht. apply success_trace_ends.
Qed.

Lemma C10_web_copy_witness :
  exists pre,
    trace_of (createCommand (lenientEnv nothing_typed nothing_fails)
                "my-app" "My App" "com.example.myapp" (sampleState OtherOS []))
    = pre ++ [ECall EditProjectSettingsAndroid; ECall (Copy "www")]
      ++ nextSteps (lenientEnv nothing_typed nothing_fails) "/work/my-app" /\
    forall n, ~ In (ECall (Copy n)) pre.
Proof.
  apply (C10_web_copy (lenientEnv nothing_typed nothing_fails)
           "my-app" "My App" "com.example.myapp" (sampleState OtherOS [])).
  reflexivity.
Defined.

(** ** Further properties of a run *)

(** X1.  A run prompts only for an argument that was not given: a prompt is
    one of the three questions of create.ts, and the argument that it stands
    for is empty.  So a run with three arguments never prompts. *)
Theorem prompts_only_for_missing env dir name id s q :
  In (EPrompt q) (trace_of (createCommand env dir name id s)) ->
  (q = dirQuestion /\ dir = EmptyString) \/
  (q = nameQuestion /\ name = EmptyString) \/
  (q = idQuestion /\ id = EmptyString).
Proof.
  intros Hin.
  pose proof (not_report_in_script env dir name id s _ Hin eq_refl eq_refl)
    as Hs.
  apply success_trace_inv in Hs. cbv zeta in Hs.
  destruct Hs as [[E H]|[[E H]|[[E H]|Hs]]].
  - injection E as ->. auto.
  - injection E as ->. auto.
  - injection E as ->. auto.
  - exfalso. apply in_app_or in Hs. destruct Hs as [Hs|Hs];
      simpl in Hs; decompose [or] Hs; discriminate || contradiction.
Qed.

Lemma prompts_only_for_missing_witness :
  (dirQuestion = dirQuestion /\ EmptyString = EmptyString) \/
  (dirQuestion = nameQuestion /\ "My App" = EmptyString) \/
  (dirQuestion = idQuestion /\ "com.example.myapp" = EmptyString).
Proof.
  apply (prompts_only_for_missing (lenientEnv nothing_typed nothing_fails)
           EmptyString "My App" "com.example.myapp" (sampleState Mac [])).
  apply (nth_error_In _ 4). reflexivity.
Defined.

(** X2.  Every call of a run that names a path or a platform names the one
    of this run: the directory that is made, the destination of the copy and
    the directory of the installation are the resolved directory, the source
    of the copy is [config.app.assets.templateDir], a [sync] is for the iOS
    or the Android project and [copy] is for [config.web.name]. *)
Theorem calls_target_resolved_directory env dir name id s c :
  let appDir := if falsy dir then answer env dirQuestion else dir in
  In (ECall c) (trace_of (createCommand env dir name id s)) ->
  match c with
  | Mkdir d => d = appDir
  | Cp src dst => src = app_assets_templateDir (config s) /\ dst = appDir
  | RunCommand cmd => cmd = installCommand appDir
  | Sync n => n = ios_name (config s) \/ n = android_name (config s)
  | Copy n => n = web_name (config s)
  | _ => True
  end.
Proof.
  intros appDir Hin.
  pose proof (not_report_in_script env dir name id s _ Hin eq_refl eq_refl)
    as Hs.
  apply success_trace_inv in Hs. cbv zeta in Hs.
  change (resolve env dirQuestion dir) with appDir in Hs.
  destruct Hs as [[E _]|[[E _]|[[E _]|Hs]]]; try discriminate.
  apply in_app_or in Hs. destruct Hs as [Hs|Hs]; simpl in Hs;
    decompose [or] Hs; try discriminate; try contradiction;
    match goal with E : ECall _ = ECall _ |- _ => injection E as <- end;
    auto.
Qed.

Lemma calls_target_resolved_directory_witness :
  "/cli/assets/app-template" = "/cli/assets/app-template" /\
  "typed-dir" = "typed-dir".
Proof.
  apply (calls_target_resolved_directory
           (lenientEnv (fun _ => "typed-dir") nothing_fails)
           EmptyString "My App" "com.example.myapp" (sampleState Mac [])
           (Cp "/cli/assets/app-template" "typed-dir")).
  apply (nth_error_In _ 13). reflexivity.
Defined.

(** X3.  [createCommand] never throws: a run returns, or the process exits
    with status 1. *)
Theorem createCommand_never_throws env dir name id s :
  outcome_of (createCommand env dir name id s) = Returned tt \/
  outcome_of (createCommand env dir name id s) = Exited 1%Z.
Proof.
  pose proof (createCommand_cases env dir name id s) as H.
  unfold expected_run in H.
  remember (success_trace env (config s) dir name id) as script.
  destruct (snd (validation env s dir name id));
    [injection H as -> _; auto|].
  destruct (existsb _ _); [injection H as -> _; auto|].
  destruct (snd (cut env script)); injection H as -> _; auto.
Qed.

Lemma calls_success_trace env cfg dir name id :
  calls (success_trace env cfg dir name id) = pipeline_calls env cfg dir.
Proof.
  unfold success_trace, pipeline_calls, expected_platform_calls.
  rewrite !calls_app, !calls_asked.
  destruct (cli_os cfg); reflexivity.
Qed.

(** X4.  A run succeeds exactly when the three checks pass, the resolved
    directory does not exist and none of the calls of the pipeline fails. *)
Theorem createCommand_succeeds_iff env dir name id s :
  outcome_of (createCommand env dir name id s) = Returned tt <->
  (checkAppDir env (config s) (fs s) dir = None /\
   checkAppId env (config s) (fs s) id = None /\
   checkAppName env (config s) (fs s) name = None) /\
  existsb (String.eqb (if falsy dir then answer env dirQuestion else dir))
          (fs s) = false /\
  (forall c, In c (pipeline_calls env (config s) dir) -> fails env c = None).
Proof.
  change (if falsy dir then answer env dirQuestion else dir)
    with (resolve env dirQuestion dir).
  pose proof (createCommand_cases env dir name id s) as H.
  unfold expected_run in H.
  pose proof (calls_success_trace env (config s) dir name id) as Hcalls.
  remember (success_trace env (config s) dir name id) as script.
  split.
  - intros Ho. rewrite Ho in H.
    destruct (snd (validation env s dir name id)) eqn:Hv; [discriminate|].
    destruct (existsb _ _); [discriminate|].
    destruct (snd (cut env script)) eqn:Hc; [discriminate|].
    destruct (validation_passed env s dir name id Hv) as (H1 & H2 & H3 & _).
    repeat split; auto.
    intros c Hin. apply (cut_none_no_failure env script c Hc).
    apply In_calls. rewrite Hcalls. exact Hin.
  - intros ((H1 & H2 & H3) & Hex & Hok).
    assert (Hv : snd (validation env s dir name id) = None).
    { unfold validation. rewrite H1, H2. exact H3. }
    assert (Hc : snd (cut env script) = None).
    { apply cut_no_failure. intros c Hin. apply Hok.
      rewrite <- Hcalls. apply In_calls. exact Hin. }
    rewrite Hv, Hex, Hc in H. injection H as -> _. reflexivity.
Qed.

Lemma createCommand_succeeds_iff_witness :
  outcome_of
    (createCommand (sampleEnv nothing_typed nothing_fails)
       "my-app" "My App" "com.example.myapp" (sampleState Mac [])) =
  Returned tt.
Proof.
  apply (proj2 (createCommand_succeeds_iff
                  (sampleEnv nothing_typed nothing_fails)
                  "my-app" "My App" "com.example.myapp" (sampleState Mac []))).
  repeat split; reflexivity.
Defined.

(** X6.  When the checks pass and the resolved directory exists, the run
    prints the welcome line, asks for the directory if it was not given,
    looks the directory up and stops with the fatal message; although that
    message is a plain string, the usage lines are not printed, because the
    [catch] block is not reached. *)
Theorem existing_directory_report env dir name id s :
  let appDir := if falsy dir then answer env dirQuestion else dir in
  let r := createCommand env dir name id s in
  checkAppDir env (config s) (fs s) dir = None ->
  checkAppId env (config s) (fs s) id = None ->
  checkAppName env (config s) (fs s) name = None ->
  existsb (String.eqb appDir) (fs s) = true ->
  trace_of r =
    [ECheck CheckAppDir dir; ECheck CheckAppId id; ECheck CheckAppName name;
     ELog (welcome env)]
    ++ (if falsy dir then [EPrompt dirQuestion] else [])
    ++ [EExists appDir; ELogFatal (JString (dirExistsMessage appDir));
        EExit 1%Z] /\
  ~ In (ELog usageLine) (trace_of r) /\
  ~ In (ELog exampleLine) (trace_of r).
Proof.
  intros appDir r H1 H2 H3 Hex.
  assert (Hv : snd (validation env s dir name id) = None).
  { unfold validation. rewrite H1, H2. exact H3. }
  assert (Ht : trace_of r =
    [ECheck CheckAppDir dir; ECheck CheckAppId id; ECheck CheckAppName name;
     ELog (welcome env)]
    ++ (if falsy dir then [EPrompt dirQuestion] else [])
    ++ [EExists appDir; ELogFatal (JString (dirExistsMessage appDir));
        EExit 1%Z]).
  { subst r. rewrite (createCommand_dir_exists env dir name id s Hv Hex).
    unfold trace_of; cbn [snd].
    destruct (validation_passed env s dir name id Hv) as (_ & _ & _ & ->).
    reflexivity. }
  split; [exact Ht|]. rewrite Ht.
  split; intros Hin;
    (apply in_app_or in Hin; destruct Hin as [Hin|Hin];
     [simpl in Hin; decompose [or] Hin; discriminate || contradiction|];
     apply in_app_or in Hin; destruct Hin as [Hin|Hin];
     [destruct (falsy dir)|];
     simpl in Hin; decompose [or] Hin; discriminate || contradiction).
Qed.

Lemma existing_directory_report_witness :
  ~ In (ELog usageLine)
      (trace_of
         (createCommand (lenientEnv nothing_typed nothing_fails)
            "my-app" "My App" "com.example.myapp"
            (sampleState Mac ["my-app"]))).
Proof.
  apply (existing_directory_report (lenientEnv nothing_typed nothing_fails)
           "my-app" "My App" "com.example.myapp"
           (sampleState Mac ["my-app"]));
    reflexivity.
Defined.

(** X7.  In every run the collaborator calls are made in one fixed order:
    [mkdirAsync], [getOrCreateConfig], [cpAsync], [runCommand], the platform
    calls, [copy].  The calls of a run are a beginning of that sequence, and
    the whole sequence when the run succeeds. *)
Theorem calls_follow_pipeline env dir name id s :
  let r := createCommand env dir name id s in
  (exists rest, calls (trace_of r) ++ rest = pipeline_calls env (config s) dir)
  /\
  (outcome_of r = Returned tt ->
   calls (trace_of r) = pipeline_calls env (config s) dir).
Proof.
  intros r.
  pose proof (createCommand_cases env dir name id s) as H.
  fold r in H. unfold expected_run in H.
  pose proof (calls_success_trace env (config s) dir name id) as Hs.
  remember (success_trace env (config s) dir name id) as script.
  destruct (snd (validation env s dir name id)) as [msg|].
  { injection H as Ho Ht. rewrite Ho, Ht. split; [|discriminate].
    exists (pipeline_calls env (config s) dir).
    rewrite calls_app, calls_validation, calls_fatal_report. reflexivity. }
  destruct (existsb _ _).
  { injection H as Ho Ht. rewrite Ho, Ht. split; [|discriminate].
    exists (pipeline_calls env (config s) dir).
    match goal with
    | |- calls ?t ++ _ = _ =>
        replace (calls t) with (@nil Call)
          by (symmetry; apply calls_dir_exists_trace)
    end.
    reflexivity. }
  destruct (snd (cut env script)) as [e|] eqn:Hc;
    injection H as Ho Ht; rewrite Ho, Ht.
  - split; [|discriminate].
    destruct (cut_prefix env script) as [rest Hr].
    exists (calls rest).
    rewrite calls_app, calls_fatal_report, app_nil_r, <- calls_app, <- Hr.
    exact Hs.
  - split; [exists []; rewrite app_nil_r; exact Hs|intros _; exact Hs].
Qed.

Lemma calls_follow_pipeline_witness :
  calls (trace_of
           (createCommand (lenientEnv nothing_typed nothing_fails)
              "my-app" "My App" "com.example.myapp" (sampleState Mac []))) =
  [Mkdir "my-app"; GetOrCreateConfig;
   Cp "/cli/assets/app-template" "my-app";
   RunCommand (installCommand "my-app");
   AddIOS; Sync "ios"; AddAndroid; Sync "android";
   EditProjectSettingsIOS; EditProjectSettingsAndroid; Copy "www"].
Proof.
  apply (proj2 (calls_follow_pipeline (lenientEnv nothing_typed nothing_fails)
                  "my-app" "My App" "com.example.myapp" (sampleState Mac []))).
  reflexivity.
Defined.

(** *** The directory stays *)

Lemma preserves_fs_ret {A} (a : A) : preserves_fs (ret a).
Proof. intros s. reflexivity. Qed.

Lemma preserves_fs_get : preserves_fs get.
Proof. intros s. reflexivity. Qed.

Lemma preserves_fs_emit e : preserves_fs (emit e).
Proof. intros s. reflexivity. Qed.

Lemma preserves_fs_modify_config f : preserves_fs (modify_config f).
Proof. intros s. reflexivity. Qed.

Lemma preserves_fs_call env c : preserves_fs (call env c).
Proof. intros s. rewrite call_run. destruct (fails env c); reflexivity. Qed.

Lemma preserves_fs_bind {A B} (m : M A) (f : A -> M B) :
  preserves_fs m -> (forall a, preserves_fs (f a)) -> preserves_fs (bind m f).
Proof.
  intros Hm Hf s. specialize (Hm s). unfold bind.
  destruct (m s) as [[[a|e|c] s1] t1]; unfold state_of in *; simpl in *;
    try exact Hm.
  specialize (Hf a s1). destruct (f a s1) as [[o s2] t2].
  unfold state_of in *; simpl in *. congruence.
Qed.

Lemma preserves_fs_getName env name : preserves_fs (getName env name).
Proof. intros s. rewrite getName_run. reflexivity. Qed.

Lemma preserves_fs_getAppId env id : preserves_fs (getAppId env id).
Proof. intros s. rewrite getAppId_run. reflexivity. Qed.

Lemma preserves_fs_createCatch e : preserves_fs (createCatch e).
Proof. intros s. rewrite createCatch_run. reflexivity. Qed.

Ltac preserves_fs_go :=
  repeat first
    [ apply preserves_fs_ret
    | apply preserves_fs_get
    | apply preserves_fs_emit
    | apply preserves_fs_modify_config
    | apply preserves_fs_call
    | apply preserves_fs_getName
    | apply preserves_fs_getAppId
    | apply preserves_fs_bind; [|intro]
    | match goal with
      | |- preserves_fs (if ?b then _ else _) => destruct b
      end ].

Lemma state_of_prepend {A} t (r : Outcome A * State * list Event) :
  state_of (prepend t r) = state_of r.
Proof. reflexivity. Qed.

Lemma fs_try_catch {A} (body : M A) handler s :
  (forall e, preserves_fs (handler e)) ->
  fs (state_of (try_catch body handler s)) = fs (state_of (body s)).
Proof.
  intros Hh. unfold try_catch.
  destruct (body s) as [[[a|e|c] s1] t1]; try reflexivity.
  specialize (Hh e s1). destruct (handler e s1) as [[o s2] t2].
  exact Hh.
Qed.

(** The paths that exist after a run whose checks pass and whose directory
    does not exist yet. *)
Lemma createCommand_fs env dir name id s :
  snd (validation env s dir name id) = None ->
  existsb (String.eqb (resolve env dirQuestion dir)) (fs s) = false ->
  fs (state_of (createCommand env dir name id s)) =
  match fails env (Mkdir (resolve env dirQuestion dir)) with
  | Some _ => fs s
  | None => resolve env dirQuestion dir :: fs s
  end.
Proof.
  intros Hv Hex. unfold createCommand.
  rewrite fs_try_catch by apply preserves_fs_createCatch.
  unfold createBody.
  erewrite bind_Returned; [|rewrite check_three, Hv; reflexivity].
  rewrite state_of_prepend.
  erewrite bind_Returned; [|reflexivity]. rewrite state_of_prepend.
  erewrite bind_Returned; [|apply getDir_run]. rewrite state_of_prepend.
  destruct (fails env (Mkdir (resolve env dirQuestion dir))) eqn:Hmk.
  - erewrite bind_Thrown; [reflexivity|].
    rewrite makeDirectory_run, Hex, Hmk. reflexivity.
  - erewrite bind_Returned; [|rewrite makeDirectory_run, Hex, Hmk; reflexivity].
    rewrite state_of_prepend.
    match goal with
    | |- fs (state_of (?m ?s0)) = _ =>
        assert (P : preserves_fs m)
    end.
    { unfold setCurrentWorkingDir, create, installDeps, addPlatforms,
        editPlatforms, printNextSteps, runTask, cpAsync, log.
      preserves_fs_go. }
    rewrite P. reflexivity.
Qed.

(** X10.  A run is not idempotent: after a run that has made the directory,
    a second run that resolves to the same directory ends fatally, calls no
    collaborator and changes nothing, whatever its other arguments are and
    whatever the checks, the answers to the prompts and the collaborators
    do then. *)
Theorem second_run_is_refused env dir name id s env' dir' name' id' :
  let appDir := if falsy dir then answer env dirQuestion else dir in
  let appDir' := if falsy dir' then answer env' dirQuestion else dir' in
  let s1 := state_of (createCommand env dir name id s) in
  let r2 := createCommand env' dir' name' id' s1 in
  checkAppDir env (config s) (fs s) dir = None ->
  checkAppId env (config s) (fs s) id = None ->
  checkAppName env (config s) (fs s) name = None ->
  existsb (String.eqb appDir) (fs s) = false ->
  fails env (Mkdir appDir) = None ->
  appDir' = appDir ->
  outcome_of r2 = Exited 1%Z /\ calls (trace_of r2) = [] /\ state_of r2 = s1.
Proof.
  intros appDir appDir' s1 r2 H1 H2 H3 Hex Hmk Hsame.
  change appDir with (resolve env dirQuestion dir) in *.
  change appDir' with (resolve env' dirQuestion dir') in *.
  assert (Hv : snd (validation env s dir name id) = None).
  { unfold validation. rewrite H1, H2. exact H3. }
  assert (Hfs : fs s1 = resolve env dirQuestion dir :: fs s).
  { subst s1. rewrite (createCommand_fs env dir name id s Hv Hex), Hmk.
    reflexivity. }
  assert (Hex1 : existsb (String.eqb (resolve env' dirQuestion dir')) (fs s1)
                 = true).
  { rewrite Hfs, Hsame. simpl. rewrite String.eqb_refl. reflexivity. }
  subst r2.
  destruct (snd (validation env' s1 dir' name' id')) as [msg|] eqn:Hv1.
  - rewrite (createCommand_check_fails _ _ _ _ _ _ Hv1). repeat split.
    unfold trace_of; cbn [snd].
    rewrite calls_app, calls_validation, calls_fatal_report. reflexivity.
  - rewrite (createCommand_dir_exists _ _ _ _ _ Hv1 Hex1). repeat split.
    unfold trace_of; cbn [snd]. apply calls_dir_exists_trace.
Qed.

Lemma second_run_is_refused_witness :
  let s1 := state_of
              (createCommand (lenientEnv (fun _ => "my-app") nothing_fails)
                 EmptyString "My App" "com.example.myapp"
                 (sampleState Mac [])) in
  let r2 := createCommand (lenientEnv nothing_typed cp_fails)
              "my-app" "Other App" "org.example.other" s1 in
  outcome_of r2 = Exited 1%Z /\ calls (trace_of r2) = [] /\ state_of r2 = s1.
Proof.
  apply (second_run_is_refused
           (lenientEnv (fun _ => "my-app") nothing_fails)
           EmptyString "My App" "com.example.myapp" (sampleState Mac [])
           (lenientEnv nothing_typed cp_fails)
           "my-app" "Other App" "org.example.other");
    reflexivity.
Defined.

(** X11.  The configuration is assigned before it is persisted and used:
    every assignment ([setCurrentWorkingDir], [app.appName], [app.appId],
    [app.bundledWebRuntime]) comes before [getOrCreateConfig] and before
    every later call. *)
Theorem config_assigned_before_use env dir name id s :
  precedes is_config_write is_call_after_mkdir
           (trace_of (createCommand env dir name id s)).
Proof.
  apply (ascending_precedes _ _ _ 5 _ _
           (createCommand_stages_in_order env dir name id s)).
  - intros [] H; try discriminate; eexists; split; try reflexivity; lia.
  - intros [| | | |c| | | | | | | |] H; try discriminate.
    destruct c; try discriminate; eexists; split; try reflexivity; lia.
Qed.

(** A failing call ends the run, and what precedes it belongs to the script
    of a successful run. *)
Lemma createCommand_fail_stop_script env dir name id s c e :
  In (ECall c) (trace_of (createCommand env dir name id s)) ->
  fails env c = Some e ->
  exists pre,
    trace_of (createCommand env dir name id s) =
      pre ++ ECall c :: fatal_report e /\
    forall ev, In ev pre -> In ev (success_trace env (config s) dir name id).
Proof.
  intros Hin Hc.
  pose proof (createCommand_cases env dir name id s) as H.
  unfold expected_run in H.
  remember (success_trace env (config s) dir name id) as script.
  assert (Hquiet : forall t, calls t = [] -> ~ In (ECall c) t).
  { intros t Ht Hi. apply In_calls in Hi. rewrite Ht in Hi. exact Hi. }
  destruct (snd (validation env s dir name id)) as [msg|].
  - injection H as Ho Ht. rewrite Ht in Hin. exfalso.
    revert Hin. apply Hquiet.
    rewrite calls_app, calls_validation, calls_fatal_report. reflexivity.
  - destruct (existsb _ _).
    + injection H as Ho Ht. rewrite Ht in Hin. exfalso.
      revert Hin. apply Hquiet. apply calls_dir_exists_trace.
    + destruct (snd (cut env script)) as [e0|] eqn:Hcut;
        injection H as Ho Ht; rewrite Ht in Hin |- *.
      * destruct (cut_failure env script e0 Hcut)
          as (pre & c0 & rest & E1 & E2 & E3 & E4).
        assert (Hpre : forall ev, In ev pre -> In ev script).
        { intros ev Hev. apply (cut_In env). rewrite E2.
          apply in_or_app. left. exact Hev. }
        rewrite E2 in Hin |- *.
        apply in_app_or in Hin. destruct Hin as [Hin|Hin].
        { apply in_app_or in Hin. destruct Hin as [Hin|[Hin|[]]].
          - rewrite (E4 c Hin) in Hc. discriminate.
          - injection Hin as ->. rewrite E3 in Hc. injection Hc as ->.
            exists pre. rewrite <- app_assoc. split; [reflexivity|exact Hpre]. }
        apply fatal_report_is_report in Hin. discriminate.
      * rewrite (cut_none_no_failure env script c Hcut Hin) in Hc.
        discriminate.
Qed.

Lemma usage_not_in_script env cfg dir name id :
  ~ In (ELog usageLine) (success_trace env cfg dir name id).
Proof.
  intros H. apply success_trace_inv in H. cbv zeta in H.
  destruct H as [[E _]|[[E _]|[[E _]|H]]]; try discriminate.
  apply in_app_or in H. destruct H as [H|H]; simpl in H;
    decompose [or] H; try discriminate; try contradiction.
Qed.

(** X12.  When a collaborator call fails, the usage lines are printed
    exactly when the value that the call throws is a plain string: a string
    thrown by a collaborator is taken for a check error. *)
Theorem usage_hint_on_call_failure env dir name id s c e :
  In (ECall c) (trace_of (createCommand env dir name id s)) ->
  fails env c = Some e ->
  (In (ELog usageLine) (trace_of (createCommand env dir name id s)) <->
   typeof_is_string e = true).
Proof.
  intros Hin Hc.
  destruct (createCommand_fail_stop_script env dir name id s c e Hin Hc)
    as (pre & Ht & Hpre).
  rewrite Ht. split.
  - intros H. apply in_app_or in H. destruct H as [H|[H|H]].
    + exfalso. apply (usage_not_in_script env (config s) dir name id).
      apply Hpre. exact H.
    + discriminate.
    + unfold fatal_report in H. destruct (typeof_is_string e);
        [reflexivity|].
      simpl in H. decompose [or] H; discriminate || contradiction.
  - intros He. apply in_or_app. right. right.
    unfold fatal_report. rewrite He. left. reflexivity.
Qed.

Lemma usage_hint_on_call_failure_witness :
  In (ELog usageLine)
     (trace_of
        (createCommand (lenientEnv nothing_typed npm_fails_with_string)
           "my-app" "My App" "com.example.myapp" (sampleState Mac []))).
Proof.
  destruct (usage_hint_on_call_failure
              (lenientEnv nothing_typed npm_fails_with_string)
              "my-app" "My App" "com.example.myapp" (sampleState Mac [])
              (RunCommand (installCommand "my-app"))
              (JString "npm ERR! network")) as [_ H].
  - apply (nth_error_In _ 15). reflexivity.
  - reflexivity.
  - apply H. reflexivity.
Defined.

(** X13.  When the directory cannot be made, the run ends with the fatal
    report of that failure and the state is as it was before the run: the
    configuration has not been touched. *)
Theorem mkdir_failure_leaves_state env dir name id s e :
  let appDir := if falsy dir then answer env dirQuestion else dir in
  checkAppDir env (config s) (fs s) dir = None ->
  checkAppId env (config s) (fs s) id = None ->
  checkAppName env (config s) (fs s) name = None ->
  existsb (String.eqb appDir) (fs s) = false ->
  fails env (Mkdir appDir) = Some e ->
  createCommand env dir name id s =
  (Exited 1%Z, s,
   [ECheck CheckAppDir dir; ECheck CheckAppId id; ECheck CheckAppName name;
    ELog (welcome env)]
   ++ (if falsy dir then [EPrompt dirQuestion] else [])
   ++ [EExists appDir; ECall (Mkdir appDir)]
   ++ (if typeof_is_string e then [ELog usageLine; ELog exampleLine] else [])
   ++ [ELogFatal e; EExit 1%Z]).
Proof.
  intros appDir H1 H2 H3 Hex Hmk.
  change appDir with (resolve env dirQuestion dir) in *.
  assert (Hv : snd (validation env s dir name id) = None).
  { unfold validation. rewrite H1, H2. exact H3. }
  destruct (validation_passed env s dir name id Hv) as (_ & _ & _ & Hev).
  unfold createCommand, createBody.
  erewrite try_catch_Thrown.
  2: { erewrite bind_Returned; [|rewrite check_three, Hv; reflexivity].
       erewrite bind_Returned; [|reflexivity].
       erewrite bind_Returned; [|apply getDir_run].
       erewrite bind_Thrown;
         [|rewrite makeDirectory_run, Hex, Hmk; reflexivity].
       reflexivity. }
  rewrite createCatch_run, Hev.
  unfold prepend, outcome_of, state_of, trace_of, fatal_report, asked.
  simpl. rewrite <- !app_assoc. reflexivity.
Qed.

Lemma mkdir_failure_leaves_state_witness :
  createCommand (lenientEnv nothing_typed mkdir_fails)
    "my-app" "My App" "com.example.myapp" (sampleState Mac []) =
  (Exited 1%Z, sampleState Mac [],
   [ECheck CheckAppDir "my-app"; ECheck CheckAppId "com.example.myapp";
    ECheck CheckAppName "My App"; ELog "Welcome to Capacitor (CLI v1.0.0)"]
   ++ []
   ++ [EExists "my-app"; ECall (Mkdir "my-app")]
   ++ []
   ++ [ELogFatal (JError "EACCES: permission denied"); EExit 1%Z]).
Proof.
  apply (mkdir_failure_leaves_state (lenientEnv nothing_typed mkdir_fails)
           "my-app" "My App" "com.example.myapp" (sampleState Mac [])
           (JError "EACCES: permission denied"));
    reflexivity.
Defined.

Lemma trace_of_prepend {A} t (r : Outcome A * State * list Event) :
  trace_of (prepend t r) = t ++ trace_of r.
Proof. reflexivity. Qed.

Lemma trace_of_try_catch {A} (body : M A) handler s :
  exists rest,
    trace_of (try_catch body handler s) = trace_of (body s) ++ rest.
Proof.
  unfold try_catch. destruct (body s) as [[[a|e|c] s1] t1].
  - exists []. rewrite app_nil_r. reflexivity.
  - destruct (handler e s1) as [[o s2] t2]. exists t2. reflexivity.
  - exists []. rewrite app_nil_r. reflexivity.
Qed.

(** X14.  When the checks pass and the resolved directory does not exist,
    the run always gets as far as [mkdirAsync]: it starts with the three
    checks, the welcome line, the prompt for the directory if none was
    given, [existsAsync] and [mkdirAsync] on the resolved directory.  The
    directory has no default and is not asked for again, so a blank answer
    makes the run call [existsAsync] and [mkdirAsync] with the empty
    path. *)
Theorem run_begins_with_provisioning env dir name id s :
  let appDir := if falsy dir then answer env dirQuestion else dir in
  checkAppDir env (config s) (fs s) dir = None ->
  checkAppId env (config s) (fs s) id = None ->
  checkAppName env (config s) (fs s) name = None ->
  existsb (String.eqb appDir) (fs s) = false ->
  (exists rest,
     trace_of (createCommand env dir name id s) =
     [ECheck CheckAppDir dir; ECheck CheckAppId id; ECheck CheckAppName name;
      ELog (welcome env)]
     ++ (if falsy dir then [EPrompt dirQuestion] else [])
     ++ [EExists appDir; ECall (Mkdir appDir)]
     ++ rest) /\
  (dir = EmptyString -> typed env "dir" = EmptyString ->
   appDir = EmptyString).
Proof.
  intros appDir H1 H2 H3 Hex.
  split; [|intros -> Ht; unfold appDir, answer; simpl; rewrite Ht;
           reflexivity].
  change appDir with (resolve env dirQuestion dir) in *.
  assert (Hv : snd (validation env s dir name id) = None).
  { unfold validation. rewrite H1, H2. exact H3. }
  destruct (validation_passed env s dir name id Hv) as (_ & _ & _ & Hev).
  unfold createCommand.
  destruct (trace_of_try_catch (createBody env dir name id) createCatch s)
    as [rest0 ->].
  unfold createBody.
  erewrite bind_Returned; [|rewrite check_three, Hv; reflexivity].
  rewrite trace_of_prepend, Hev.
  erewrite bind_Returned; [|reflexivity]. rewrite trace_of_prepend.
  erewrite bind_Returned; [|apply getDir_run]. rewrite trace_of_prepend.
  change (asked dirQuestion dir)
    with (if falsy dir then [EPrompt dirQuestion] else []).
  destruct (fails env (Mkdir (resolve env dirQuestion dir))) eqn:Hmk.
  - erewrite bind_Thrown;
      [|rewrite makeDirectory_run, Hex, Hmk; reflexivity].
    exists rest0. unfold trace_of; cbn [snd].
    rewrite <- !app_assoc. reflexivity.
  - erewrite bind_Returned;
      [|rewrite makeDirectory_run, Hex, Hmk; reflexivity].
    rewrite trace_of_prepend.
    match goal with
    | |- context [trace_of (?m ?s0)] => exists (trace_of (m s0) ++ rest0)
    end.
    rewrite <- !app_assoc. reflexivity.
Qed.

Lemma run_begins_with_provisioning_witness :
  exists rest,
    trace_of (createCommand (lenientEnv nothing_typed nothing_fails)
                EmptyString "My App" "com.example.myapp"
                (sampleState OtherOS [])) =
    [ECheck CheckAppDir EmptyString; ECheck CheckAppId "com.example.myapp";
     ECheck CheckAppName "My App"; ELog "Welcome to Capacitor (CLI v1.0.0)"]
    ++ [EPrompt dirQuestion]
    ++ [EExists EmptyString; ECall (Mkdir EmptyString)]
    ++ rest.
Proof.
  apply (run_begins_with_provisioning
           (lenientEnv nothing_typed nothing_fails)
           EmptyString "My App" "com.example.myapp" (sampleState OtherOS []));
    reflexivity.
Defined.

(** X15.  A run that does not succeed always says so: when the process
    exits, the last two events are the fatal report and the exit; and a run
    that succeeds makes no fatal report and does not exit. *)
Theorem failure_is_always_reported env dir name id s :
  let r := createCommand env dir name id s in
  (outcome_of r = Exited 1%Z ->
   exists pre v, trace_of r = pre ++ [ELogFatal v; EExit 1%Z]) /\
  (outcome_of r = Returned tt ->
   forall ev, In ev (trace_of r) ->
     match ev with ELogFatal _ | EExit _ => False | _ => True end).
Proof.
  intros r. split.
  - intros Ho.
    pose proof (createCommand_cases env dir name id s) as H.
    fold r in H. rewrite Ho in H. unfold expected_run in H.
    remember (success_trace env (config s) dir name id) as script.
    assert (Hrep : forall t e, exists pre v,
               t ++ fatal_report e = pre ++ [ELogFatal v; EExit 1%Z]).
    { intros t e.
      exists (t ++ if typeof_is_string e
                   then [ELog usageLine; ELog exampleLine] else []), e.
      unfold fatal_report. rewrite <- app_assoc. reflexivity. }
    destruct (snd (validation env s dir name id)) as [msg|].
    { injection H as ->. apply Hrep. }
    destruct (existsb _ _).
    { exists (fst (validation env s dir name id) ++ [ELog (welcome env)]
              ++ asked dirQuestion dir
              ++ [EExists (resolve env dirQuestion dir)]),
        (JString (dirExistsMessage (resolve env dirQuestion dir))).
      injection H as ->. rewrite <- !app_assoc. reflexivity. }
    destruct (snd (cut env script)) as [e|] eqn:Hc.
    + injection H as ->. apply Hrep.
    + discriminate.
  - intros Ho ev Hin.
    destruct (createCommand_success env dir name id s Ho) as (Ht & _ & _).
    fold r in Ht. rewrite Ht in Hin.
    apply success_trace_inv in Hin. cbv zeta in Hin.
    destruct Hin as [[-> _]|[[-> _]|[[-> _]|Hin]]]; try exact I.
    apply in_app_or in Hin. destruct Hin as [Hin|Hin]; simpl in Hin;
      decompose [or] Hin; subst; try exact I; try contradiction.
Qed.

Lemma failure_is_always_reported_witness :
  exists pre v,
    trace_of (createCommand (lenientEnv nothing_typed cp_fails)
                "my-app" "My App" "com.example.myapp" (sampleState Mac []))
    = pre ++ [ELogFatal v; EExit 1%Z].
Proof.
  apply (proj1 (failure_is_always_reported (lenientEnv nothing_typed cp_fails)
                  "my-app" "My App" "com.example.myapp" (sampleState Mac []))).
  reflexivity.
Defined.
